(** * Dispatch core of the assistant: registry, route resolution, invocation

    A shallow embedding of [RegisterPackage], [getPkg] and [callPkg] (package
    [main]) together with the properties of the registry, of the resolver and
    of the dispatcher that follow from them.

    Conventions of the embedding.
    - Go strings are byte strings; they are modelled by [string].  The
      library functions [strings.ToLower] and [strings.Title] are modelled on
      ASCII input: bytes outside the ASCII letters are left as they are.
    - The process-wide map [regPkgs] is a [gmap string PkgWrapper]; a lookup
      that yields Go's [nil] is [None].
    - Output on the logger and calls that leave the process (dialing, remote
      procedure calls) are appended to a trace kept in the state.
    - What the outside world answers (the dialer, the persistence layer, the
      remote skill) is a [World] record of functions. *)

From stdpp Require Import gmap strings list fin_maps pretty.
From Stdlib Require Import ZArith Ascii.

Local Open Scope Z_scope.

(** ** Library functions on strings *)

Module Strings.

(** ASCII upper-case letters, 'A' to 'Z'. *)
Definition isUpper (a : ascii) : bool :=
  let n := N_of_ascii a in ((65 <=? n) && (n <=? 90))%N.

(** ASCII lower-case letters, 'a' to 'z'. *)
Definition isLower (a : ascii) : bool :=
  let n := N_of_ascii a in ((97 <=? n) && (n <=? 122))%N.

Definition isDigit (a : ascii) : bool :=
  let n := N_of_ascii a in ((48 <=? n) && (n <=? 57))%N.

Definition lowerChar (a : ascii) : ascii :=
  if isUpper a then ascii_of_N (N_of_ascii a + 32) else a.

Definition upperChar (a : ascii) : ascii :=
  if isLower a then ascii_of_N (N_of_ascii a - 32) else a.

(** [strings.ToLower]. *)
Fixpoint ToLower (s : string) : string :=
  match s with
  | EmptyString => EmptyString
  | String a s' => String (lowerChar a) (ToLower s')
  end.

(** [isSeparator] of package [strings]: ASCII letters, digits and the
    underscore do not separate words, every other ASCII byte does.  Bytes
    from 128 on (parts of a multi-byte rune) are kept inside the word. *)
Definition isSeparator (a : ascii) : bool :=
  if (N_of_ascii a <=? 127)%N
  then negb (isDigit a || isLower a || isUpper a || Ascii.eqb a "_")
  else false.

Fixpoint titleFrom (prev : ascii) (s : string) : string :=
  match s with
  | EmptyString => EmptyString
  | String a s' =>
      String (if isSeparator prev then upperChar a else a) (titleFrom a s')
  end.

(** [strings.Title]: upper-cases the first letter of every word; the
    scan starts as if a space came before the string. *)
Definition Title (s : string) : string := titleFrom " " s.

(** [strings.Split(s, sep)] for a separator of one byte: the fields of [s]
    between the occurrences of [sep]; never the empty list. *)
Fixpoint Split (s : string) (sep : ascii) : list string :=
  match s with
  | EmptyString => [EmptyString]
  | String a s' =>
      if Ascii.eqb a sep then EmptyString :: Split s' sep
      else match Split s' sep with
           | [] => [String a EmptyString]
           | f :: fs => String a f :: fs
           end
  end.

(** [strconv.Itoa]: decimal digits, with a leading minus sign below zero. *)
Definition Itoa (n : Z) : string := pretty n.

End Strings.

Import Strings.

(** [strings.Split(t, "'")[0]], as both loops of [getPkg] apply it to a
    token.  [Split] never returns the empty slice, so the index is in
    range; the default of [hd] is not reached. *)
Definition firstField (t : string) : string := hd EmptyString (Split t "'").

(** Go's [int] on the 64-bit targets, with its wrap-around. *)
Definition wrapInt (z : Z) : Z := (z + 2 ^ 63) mod 2 ^ 64 - 2 ^ 63.

(** ** Data model *)

(** [pkg.Pkg]: the descriptor a skill sends when it registers.  The type is
    declared in package [pkg]; the fields are the ones the dispatch core
    reads. *)
Record PkgConfig := {
  Name : string;
  ServerAddress : string;
  Port : Z
}.

(** [datatypes.StructuredInput]: recognised command and object tokens, in
    the order in which they appear. *)
Record StructuredInput := {
  Commands : list string;
  Objects : list string
}.

Record Pkg := {
  Config : PkgConfig;
  Trigger : StructuredInput
}.

(** An open [*rpc.Client]; the dialer hands out the handle. *)
Record Client := { connID : nat }.

(** [pkg.PkgWrapper]: descriptor and connection, the value type of the
    registry. *)
Record PkgWrapper := {
  P : Pkg;
  RPCClient : Client
}.

(** Go [error] values the core tells apart: the sentinel
    [ErrMissingPackage] and whatever a collaborator returned. *)
Inductive Err :=
| ErrMissingPackage
| ErrOther (text : string).

Record User := { ID : Z }.

(** [m.LastResponse]: what the previous turn left behind; the core reads
    its [Route]. *)
Record Response := { RespRoute : string }.

Record Input := { StructuredInput_ : StructuredInput }.

(** [datatypes.Message].  [MsgUser] and [LastResponse] are pointers, [None]
    is [nil]. *)
Record Message := {
  MsgUser : option User;
  MsgInput : Input;
  LastResponse : option Response;
  Route : string
}.

(** [datatypes.ResponseMsg]; its zero value is what [callPkg] allocates
    before the call. *)
Record ResponseMsg := { Sentence : string }.

Definition emptyResponseMsg : ResponseMsg := {| Sentence := EmptyString |}.

Definition msgCommands (m : Message) : list string :=
  Commands (StructuredInput_ (MsgInput m)).

Definition msgObjects (m : Message) : list string :=
  Objects (StructuredInput_ (MsgInput m)).

Definition setLastResponse (r : option Response) (m : Message) : Message :=
  {| MsgUser := MsgUser m; MsgInput := MsgInput m;
     LastResponse := r; Route := Route m |}.

Definition setRoute (r : string) (m : Message) : Message :=
  {| MsgUser := MsgUser m; MsgInput := MsgInput m;
     LastResponse := LastResponse m; Route := r |}.

(** ** Effects *)

(** The lines the three functions print with [log.Println], one constructor
    per call site. *)
Inductive LogLine :=
| LogRegistering (pt : Z)           (* "registering package with listen port" pt *)
| LogBugHere                        (* "BUG HERE" *)
| LogWarnDuplicate (name key : string)
                                    (* "warn: duplicate package or trigger" name key *)
| LogMissingOnboard                 (* "err: missing required onboard package" *)
| LogSearching (key : string)       (* "searching for " + key *)
| LogPNil                           (* "p is nil, getting last response route" *)
| LogNoLastPackage                  (* "couldn't find last package" *)
| LogSending (name : string)        (* "sending structured input to" name *)
| LogFollowUp                       (* "FollowUp" *)
| LogCalling (m : Message)          (* "calling pkg with" m *)
| LogInvalidResponse.               (* "invalid response" *)

(** What the process does that can be seen from outside, in order. *)
Inductive Event :=
| Println (l : LogLine)
| Dialed (network addr : string)
| Fetched (m : Message)
| Called (cl : Client) (method : string) (m : Message).

(** The answers of the collaborators. *)
Record World := {
  (** [rpc.Dial(network, addr)] *)
  Dial : string -> string -> Err + Client;
  (** the lookup behind [m.GetLastResponse(db)]: the value the call leaves
      in [m.LastResponse] and the error it returns *)
  QueryLastResponse : Message -> option Response * option Err;
  (** [cl.Call(method, m, reply)]: the reply as the call leaves it and the
      error it returns *)
  Call : Client -> string -> Message -> ResponseMsg * option Err
}.

(** The package-level variable [regPkgs] and the trace of effects. *)
Record State := {
  regPkgs : gmap string PkgWrapper;
  trace : list Event
}.

(** [regPkgs] as the program starts: [map[string]*pkg.PkgWrapper{}]. *)
Definition initState : State := {| regPkgs := ∅; trace := [] |}.

Definition emit (e : Event) (st : State) : State :=
  {| regPkgs := regPkgs st; trace := trace st ++ [e] |}.

Definition println (l : LogLine) (st : State) : State := emit (Println l) st.

(** [regPkgs[k] = v] *)
Definition store (k : string) (v : PkgWrapper) (st : State) : State :=
  {| regPkgs := <[k := v]> (regPkgs st); trace := trace st |}.

(** ** RegisterPackage *)

(** Body of the inner loop, for the lower-cased command [c] and object [o]. *)
Definition registerObject (p : Pkg) (cl : Client) (c : string)
    (st : State) (o : string) : State :=
  let s := ToLower (c +:+ "_" +:+ o) in
  let st :=
    match regPkgs st !! s with
    | Some _ => println (LogWarnDuplicate (Name (Config p)) s) st
    | None => st
    end in
  store s {| P := p; RPCClient := cl |} st.

(** Body of the outer loop, for the command [c] of the trigger. *)
Definition registerCommand (p : Pkg) (cl : Client)
    (st : State) (c : string) : State :=
  let c := ToLower c in
  let st := fold_left (registerObject p cl c) (Objects (Trigger p)) st in
  store c {| P := p; RPCClient := cl |} st.

(** The address [RegisterPackage] dials: the skill's host and the port
    after its configured one. *)
Definition listenAddr (p : Pkg) : string :=
  let pt := wrapInt (Port (Config p) + 1) in
  let port := ":" +:+ Itoa pt in
  ServerAddress (Config p) +:+ port.

Definition RegisterPackage (w : World) (p : Pkg) (st : State)
    : State * option Err :=
  let pt := wrapInt (Port (Config p) + 1) in
  let st := println (LogRegistering pt) st in
  let port := ":" +:+ Itoa pt in
  let addr := ServerAddress (Config p) +:+ port in
  let st := emit (Dialed "tcp" addr) st in
  match Dial w "tcp" addr with
  | inl err => (println LogBugHere st, Some err)
  | inr cl => (fold_left (registerCommand p cl) (Commands (Trigger p)) st, None)
  end.

(** ** getPkg *)

(** The variables [p], [route] and [shortRoute] of [getPkg]. *)
Record Vars := {
  p_ : option PkgWrapper;
  route_ : string;
  shortRoute_ : string
}.

Definition zeroVars : Vars :=
  {| p_ := None; route_ := EmptyString; shortRoute_ := EmptyString |}.

(** The inner loop over the objects, for the command [c] already cut at its
    first quote.  The boolean tells whether [break Loop] was taken. *)
Fixpoint objectLoop (c : string) (os : list string) (st : State) (v : Vars)
    : State * Vars * bool :=
  match os with
  | [] => (st, v, false)
  | o :: os' =>
      let o := firstField o in
      let route := ToLower (c +:+ "_" +:+ o) in
      let p := regPkgs st !! route in
      let st := println (LogSearching (ToLower (c +:+ "_" +:+ o))) st in
      match p with
      | Some _ =>
          (st, {| p_ := p; route_ := route; shortRoute_ := EmptyString |}, true)
      | None =>
          let p := regPkgs st !! o in
          let shortRoute :=
            match p with Some _ => o | None => shortRoute_ v end in
          objectLoop c os' st
            {| p_ := p; route_ := route; shortRoute_ := shortRoute |}
      end
  end.

(** The loop labelled [Loop], over the commands. *)
Fixpoint commandLoop (cs os : list string) (st : State) (v : Vars)
    : State * Vars :=
  match cs with
  | [] => (st, v)
  | c :: cs' =>
      let c := firstField c in
      let '(st, v, broke) := objectLoop c os st v in
      if broke then (st, v)
      else
        let p := regPkgs st !! c in
        let shortRoute :=
          match p with Some _ => c | None => shortRoute_ v end in
        commandLoop cs' os st
          {| p_ := p; route_ := route_ v; shortRoute_ := shortRoute |}
  end.

(** Modelled from the spec: the method [GetLastResponse] of
    [datatypes.Message] is not among the sources.  It is the persistence
    collaborator's lookup of what the user's previous turn left; it writes
    the field [LastResponse] of the message and returns an error.  What the
    lookup finds is the world's answer. *)
Definition GetLastResponse (w : World) (m : Message) : Message * option Err :=
  let '(r, err) := QueryLastResponse w m in
  (setLastResponse r m, err).

(** The four results of [getPkg]: package, route, the flag that callers
    read as "resolved through the last route", error. *)
Definition Resolved : Type := option PkgWrapper * string * bool * option Err.

Definition getPkg (w : World) (m : Message) (st : State)
    : State * Message * Resolved :=
  match MsgUser m with
  | None =>
      match regPkgs st !! "onboard" with
      | Some p => (st, m, (Some p, "onboard", false, None))
      | None =>
          (println LogMissingOnboard st, m,
           (None, "onboard", false, Some ErrMissingPackage))
      end
  | Some _ =>
      let '(st, v) := commandLoop (msgCommands m) (msgObjects m) st zeroVars in
      let p := p_ v in
      let route :=
        if (0 <? String.length (shortRoute_ v))%nat
        then shortRoute_ v else route_ v in
      match p with
      | None =>
          let st := println LogPNil st in
          let st := emit (Fetched m) st in
          let '(m, err) := GetLastResponse w m in
          match err with
          | Some err => (st, m, (p, route, false, Some err))
          | None =>
              match LastResponse m with
              | None =>
                  (println LogNoLastPackage st, m,
                   (p, route, false, Some ErrMissingPackage))
              | Some last =>
                  let route := RespRoute last in
                  let p := regPkgs st !! route in
                  match p with
                  | None => (st, m, (p, route, true, Some ErrMissingPackage))
                  | Some _ =>
                      let m := setLastResponse None m in
                      (st, m, (p, route, false, None))
                  end
              end
          end
      | Some _ => (st, m, (p, route, false, None))
      end
  end.

(** ** callPkg *)

(** A Go function either returns or panics (here: on a nil pointer). *)
Inductive Outcome (A : Type) :=
| Returns (a : A)
| Panics.
Arguments Returns {A} a.
Arguments Panics {A}.

(** The four results of [callPkg]: reply, package name, route, error. *)
Definition Dispatched : Type := ResponseMsg * string * string * option Err.

Definition callPkg (w : World) (m : Message) (ctxAdded : bool) (st : State)
    : State * Message * Outcome Dispatched :=
  let reply := emptyResponseMsg in
  let '(st, m, (pw, route, lastRoute, err)) := getPkg w m st in
  match err with
  | Some err =>
      let pname :=
        match pw with Some pw => Name (Config (P pw)) | None => EmptyString end in
      (st, m, Returns (reply, pname, route, Some err))
  | None =>
      match pw with
      | None => (st, m, Panics)
      | Some pw =>
          let st := println (LogSending (Name (Config (P pw)))) st in
          let c := Title (Name (Config (P pw))) in
          let '(st, c) :=
            if ctxAdded || lastRoute || (length (msgCommands m) =? 0)%nat
            then (println LogFollowUp st, c +:+ ".FollowUp")
            else (st, c +:+ ".Run") in
          let m := setRoute route m in
          let st := println (LogCalling m) st in
          let st := emit (Called (RPCClient pw) c m) st in
          let '(reply, err) := Call w (RPCClient pw) c m in
          match err with
          | Some err =>
              (println LogInvalidResponse st, m,
               Returns (reply, Name (Config (P pw)), route, Some err))
          | None => (st, m, Returns (reply, Name (Config (P pw)), route, None))
          end
      end
  end.

(** ** Notions used in the statements *)

(** The key both [RegisterPackage] and [getPkg] build from a command and an
    object: [strings.ToLower(c + "_" + o)]. *)
Definition compoundKey (c o : string) : string := ToLower (c +:+ "_" +:+ o).

(** The keys one round of the outer loop of [RegisterPackage] stores for the
    command [c], in the order of the stores. *)
Definition commandKeys (p : Pkg) (c : string) : list string :=
  map (fun o => compoundKey (ToLower c) o) (Objects (Trigger p)) ++ [ToLower c].

(** All keys a registration of [p] stores. *)
Definition triggerKeys (p : Pkg) : list string :=
  flat_map (commandKeys p) (Commands (Trigger p)).

(** [k] is the compound key of a command and an object of [p]'s trigger. *)
Definition compoundOf (p : Pkg) (k : string) : Prop :=
  ∃ c o, c ∈ Commands (Trigger p) ∧ o ∈ Objects (Trigger p) ∧
         k = compoundKey c o.

(** [k] is a lower-cased command of [p]'s trigger. *)
Definition bareCommandOf (p : Pkg) (k : string) : Prop :=
  ∃ c, c ∈ Commands (Trigger p) ∧ k = ToLower c.

(** [st'] continues the trace of [st] with events that satisfy [Q], and keeps
    every key of its registry. *)
Definition extendsBy (Q : Event -> Prop) (st st' : State) : Prop :=
  (∃ new, trace st' = trace st ++ new ∧ Forall Q new) ∧
  (∀ k, is_Some (regPkgs st !! k) -> is_Some (regPkgs st' !! k)).

(** The only lines a registration of [p] prints inside its loops: the
    warning, with the name of [p] and a compound key of its trigger. *)
Definition isWarning (p : Pkg) (e : Event) : Prop :=
  ∃ c o, c ∈ Commands (Trigger p) ∧ o ∈ Objects (Trigger p) ∧
         e = Println (LogWarnDuplicate (Name (Config p)) (compoundKey c o)).

(** The states the process can be in: it starts with the empty registry and
    runs registrations and dispatches, against any answers of the world. *)
Inductive Reachable : State -> Prop :=
| ReachInit : Reachable initState
| ReachRegister w p st :
    Reachable st -> Reachable (RegisterPackage w p st).1
| ReachCall w m ctxAdded st :
    Reachable st -> Reachable (callPkg w m ctxAdded st).1.1.

(** [st] after the events [evs]. *)
Definition logged (evs : list Event) (st : State) : State :=
  {| regPkgs := regPkgs st; trace := trace st ++ evs |}.

(** The lines the inner loop of [getPkg] prints for the command [c] (cut at
    its quote) and the objects [os]. *)
Definition searchLines (c : string) (os : list string) : list Event :=
  map (fun o => Println (LogSearching (compoundKey c (firstField o)))) os.

(** The lines of the rounds of the outer loop for the commands [cs], when
    none of them is left early. *)
Definition searchRounds (cs os : list string) : list Event :=
  flat_map (fun c => searchLines (firstField c) os) cs.

(** A token carries no quote character. *)
Fixpoint quoteFree (t : string) : bool :=
  match t with
  | EmptyString => true
  | String a t' => negb (Ascii.eqb a "'") && quoteFree t'
  end.

(** *** Concrete skills, worlds and utterances *)

Definition weather : Pkg :=
  {| Config := {| Name := "weather"; ServerAddress := "localhost"; Port := 4000 |};
     Trigger := {| Commands := ["get"]; Objects := ["forecast"] |} |}.

(** A second skill that declares the command of [weather] and no object. *)
Definition getter : Pkg :=
  {| Config := {| Name := "getter"; ServerAddress := "localhost"; Port := 4100 |};
     Trigger := {| Commands := ["get"]; Objects := [] |} |}.

Definition someClient : Client := {| connID := 1 |}.

Definition noReply : ResponseMsg := {| Sentence := "ok" |}.

(** Every endpoint answers, nothing is stored for any user, every call
    succeeds. *)
Definition quietWorld : World :=
  {| Dial := fun _ _ => inr someClient;
     QueryLastResponse := fun _ => (None, None);
     Call := fun _ _ _ => (noReply, None) |}.

(** As [quietWorld], but the store holds a last response with [route]. *)
Definition worldWithLast (route : string) : World :=
  {| Dial := fun _ _ => inr someClient;
     QueryLastResponse := fun _ => (Some {| RespRoute := route |}, None);
     Call := fun _ _ _ => (noReply, None) |}.

(** No endpoint answers. *)
Definition deafWorld : World :=
  {| Dial := fun _ _ => inl (ErrOther "connection refused");
     QueryLastResponse := fun _ => (None, None);
     Call := fun _ _ _ => (noReply, None) |}.

Definition utterance (u : option User) (cs os : list string) : Message :=
  {| MsgUser := u;
     MsgInput := {| StructuredInput_ := {| Commands := cs; Objects := os |} |};
     LastResponse := None;
     Route := EmptyString |}.

Definition alice : User := {| ID := 1 |}.

(** The registry after [weather] registered with a process just started. *)
Definition weatherState : State := (RegisterPackage quietWorld weather initState).1.

(** The remote procedure calls of a trace, in order. *)
Definition rpcCalls (tr : list Event) : list (Client * string * Message) :=
  flat_map (fun e => match e with
                     | Called cl method m => [(cl, method, m)]
                     | _ => []
                     end) tr.

(** A skill whose trigger shares nothing with the one of [weather]. *)
Definition news : Pkg :=
  {| Config := {| Name := "news"; ServerAddress := "localhost"; Port := 4200 |};
     Trigger := {| Commands := ["Read"]; Objects := ["headlines"; "paper"] |} |}.

(** The route [getPkg] holds after the loops: the short route when one was
    recorded, the last compound key otherwise. *)
Definition routeOf (v : Vars) : string :=
  if (0 <? String.length (shortRoute_ v))%nat then shortRoute_ v else route_ v.

(** A skill that declares the empty command. *)
Definition anything : Pkg :=
  {| Config := {| Name := "anything"; ServerAddress := "localhost"; Port := 4300 |};
     Trigger := {| Commands := [EmptyString]; Objects := [] |} |}.

(** The variables of the loops agree with the registry: a package in [p]
    is the entry of the route that [getPkg] will return. *)
Definition agree (st : State) (v : Vars) : Prop :=
  ∀ e, p_ v = Some e -> regPkgs st !! routeOf v = Some e.

(** ** Package auth: [RequestAuth] and [Purchase] *)

Module Auth.

(** [dt.Method]: the constants are [iota + 1] in the order of the source. *)
Definition MethodCVV : Z := 1.
Definition MethodZip : Z := 2.
Definition MethodWebCache : Z := 3.
Definition MethodWebLogin : Z := 4.

(** What the two functions read of [dt.User], [dt.Msg] and its input.  Both
    functions reach through [msg.User] at once; the model is of messages
    that have a user. *)
Record User := {
  ID : Z;
  StripeCustomerID : string
}.

Record Input := {
  FlexIDType : Z;
  FlexID : string
}.

Record Msg := {
  MsgUser : User;
  MsgInput : Input
}.

(** [dt.Product]; the functions pass products on and read nothing of them. *)
Record Product := { ProductName : string }.

(** [stripe.ChargeParams], the fields [Purchase] sets. *)
Record ChargeParams := {
  Amount : Z;
  Currency : string;
  Desc : string;
  Customer : string
}.

(** The calls that leave the package, in the order of their execution. *)
Inductive Event :=
| EvIsAuthenticated (u : User) (m : Z)
| EvDeleteSessions (u : User)
| EvBeginx
| EvInsertAuthorization (m : Z)
| EvUpdateUser (aid uid : Z)
| EvCommit
| EvSendMessage (to text : string)
| EvSetStripeKey (key : string)
| EvChargeNew (params : ChargeParams)
| EvSendPurchaseConfirmation (prds : list Product) (price : Z) (u : User).

(** The answers of the collaborators: the user's own methods, the database
    transaction, the SMS gateway, the environment, the payment provider and
    the mailer. *)
Record World := {
  IsAuthenticated : User -> Z -> bool * option Err;
  DeleteSessions : User -> option Err;
  Beginx : option Err;
  (** [tx.QueryRowx(INSERT ... RETURNING id, m).Scan(&aid)] *)
  InsertAuthorization : Z -> Z * option Err;
  (** [tx.Exec(UPDATE users SET authorizationid=$1 WHERE id=$2, aid, uid)] *)
  UpdateUser : Z -> Z -> option Err;
  Commit : option Err;
  SendMessage : string -> string -> option Err;
  Getenv : string -> string;
  ChargeNew : ChargeParams -> option Err;
  SendPurchaseConfirmation : list Product -> Z -> User -> option Err
}.

(** A computation: the calls it made, and its value or the error it
    returned with. *)
Definition M (A : Type) : Type := list Event * (A + Err).

Definition ret {A} (a : A) : M A := ([], inl a).

Definition fail {A} (e : Err) : M A := ([], inr e).

Definition bind {A B} (c : M A) (k : A -> M B) : M B :=
  match c with
  | (evs, inl a) => let '(evs', r) := k a in (evs ++ evs', r)
  | (evs, inr e) => (evs, inr e)
  end.

(** A call that only reports an error. *)
Definition perform (ev : Event) (answer : option Err) : M unit :=
  ([ev], match answer with Some e => inr e | None => inl tt end).

(** A call that yields a value and an error. *)
Definition ask {A} (ev : Event) (answer : A * option Err) : M A :=
  ([ev], match answer.2 with Some e => inr e | None => inl answer.1 end).

#[export] Instance M_ret : MRet M := @ret.

#[export] Instance M_bind : MBind M := fun A B k c => bind c k.

(** The [switch] of [RequestAuth]: the text for the method, after the
    sessions are deleted for [MethodWebLogin].  A method outside the four
    leaves the text at the zero value. *)
Definition confirmation (w : World) (m : Z) (msg : Msg) : M string :=
  if m =? MethodCVV then
    ret "Please confirm a card's security code (CVC)"
  else if m =? MethodZip then
    ret "Please confirm your billing zip code"
  else if m =? MethodWebCache then
    ret "Please prove you're logged in: https://www.avabot.com/?/profile"
  else if m =? MethodWebLogin then
    perform (EvDeleteSessions (MsgUser msg)) (DeleteSessions w (MsgUser msg));;
    ret "Please log in to prove it's you: https://www.avabot.com/?/login"
  else ret EmptyString.

(** [RequestAuth].  Go's [(b, nil)] is [inl b]; every error is returned
    with [false], which is [inr err]. *)
Definition RequestAuth (w : World) (m : Z) (msg : Msg) : M bool :=
  authenticated ← ask (EvIsAuthenticated (MsgUser msg) m)
                      (IsAuthenticated w (MsgUser msg) m);
  if authenticated : bool then ret true
  else
    t ← confirmation w m msg;
    perform EvBeginx (Beginx w);;
    aid ← ask (EvInsertAuthorization m) (InsertAuthorization w m);
    perform (EvUpdateUser aid (ID (MsgUser msg)))
            (UpdateUser w aid (ID (MsgUser msg)));;
    perform EvCommit (Commit w);;
    if FlexIDType (MsgInput msg) =? 2 then
      perform (EvSendMessage (FlexID (MsgInput msg)) t)
              (SendMessage w (FlexID (MsgInput msg)) t);;
      ret false
    else
      fail (ErrOther ("unhandled flexidtype: "
                      +:+ Itoa (FlexIDType (MsgInput msg)))).

(** [fmt.Sprintf("Purchase for %.2f", price)] with [price] of type
    [uint64]: the verb does not fit the operand, and [fmt] prints the
    operand in its bad-verb form. *)
Definition purchaseDesc (price : Z) : string :=
  "Purchase for %!f(uint64=" +:+ Itoa price +:+ ")".

(** [Purchase]; it returns an error only: [inl tt] is [nil]. *)
Definition Purchase (w : World) (m : Z) (msg : Msg)
    (prds : list Product) (price : Z) : M unit :=
  proceed ← (if String.eqb (Getenv w "AVA_ENV") "production"
             then RequestAuth w m msg
             else ret true);
  if negb proceed then ret tt
  else
    let desc := purchaseDesc price in
    let key := Getenv w "STRIPE_ACCESS_TOKEN" in
    let chargeParams :=
      {| Amount := price; Currency := "usd"; Desc := desc;
         Customer := StripeCustomerID (MsgUser msg) |} in
    (([EvSetStripeKey key], inl tt) : M unit);;
    perform (EvChargeNew chargeParams) (ChargeNew w chargeParams);;
    perform (EvSendPurchaseConfirmation prds price (MsgUser msg))
            (SendPurchaseConfirmation w prds price (MsgUser msg));;
    ret tt.

(** The text of the confirmation for the method [m]. *)
Definition confirmText (m : Z) : string :=
  if m =? MethodCVV then "Please confirm a card's security code (CVC)"
  else if m =? MethodZip then "Please confirm your billing zip code"
  else if m =? MethodWebCache then
    "Please prove you're logged in: https://www.avabot.com/?/profile"
  else if m =? MethodWebLogin then
    "Please log in to prove it's you: https://www.avabot.com/?/login"
  else EmptyString.

(** Every call of a [RequestAuth] in which nothing fails, in order. *)
Definition fullRequest (w : World) (m : Z) (msg : Msg) : list Event :=
  [EvIsAuthenticated (MsgUser msg) m]
  ++ (if m =? MethodWebLogin then [EvDeleteSessions (MsgUser msg)] else [])
  ++ [EvBeginx; EvInsertAuthorization m;
      EvUpdateUser (InsertAuthorization w m).1 (ID (MsgUser msg));
      EvCommit]
  ++ (if FlexIDType (MsgInput msg) =? 2
      then [EvSendMessage (FlexID (MsgInput msg)) (confirmText m)]
      else []).

(** *** A user, a message and two worlds *)

Definition bob : User := {| ID := 7; StripeCustomerID := "cus_7" |}.

Definition bySMS : Msg :=
  {| MsgUser := bob; MsgInput := {| FlexIDType := 2; FlexID := "+15550100" |} |}.

Definition byMail : Msg :=
  {| MsgUser := bob; MsgInput := {| FlexIDType := 1; FlexID := "bob@example.org" |} |}.

(** Production; the user has not authenticated; every call succeeds. *)
Definition production : World :=
  {| IsAuthenticated := fun _ _ => (false, None);
     DeleteSessions := fun _ => None;
     Beginx := None;
     InsertAuthorization := fun _ => (31, None);
     UpdateUser := fun _ _ => None;
     Commit := None;
     SendMessage := fun _ _ => None;
     Getenv := fun name =>
       if String.eqb name "AVA_ENV" then "production" else "sk_test";
     ChargeNew := fun _ => None;
     SendPurchaseConfirmation := fun _ _ _ => None |}.

(** As [production], with the user authenticated. *)
Definition trusted : World :=
  {| IsAuthenticated := fun _ _ => (true, None);
     DeleteSessions := fun _ => None;
     Beginx := None;
     InsertAuthorization := fun _ => (31, None);
     UpdateUser := fun _ _ => None;
     Commit := None;
     SendMessage := fun _ _ => None;
     Getenv := fun name =>
       if String.eqb name "AVA_ENV" then "production" else "sk_test";
     ChargeNew := fun _ => None;
     SendPurchaseConfirmation := fun _ _ _ => None |}.


End Auth.

(** ** Package knowledge: [GetLocation] and [GetAddress] *)

Module Knowledge.

(** The bytes [strings.Fields] takes for white space in ASCII text: tab,
    line feed, vertical tab, form feed, carriage return and space. *)
Definition isSpace (a : ascii) : bool :=
  let n := N_of_ascii a in ((9 <=? n) && (n <=? 13) || (n =? 32))%N.

(** The fields of [s] after the field [cur] that is being read. *)
Fixpoint fieldsFrom (cur : string) (s : string) : list string :=
  match s with
  | EmptyString =>
      match cur with EmptyString => [] | _ => [cur] end
  | String a s' =>
      if isSpace a then
        match cur with
        | EmptyString => fieldsFrom EmptyString s'
        | _ => cur :: fieldsFrom EmptyString s'
        end
      else fieldsFrom (cur +:+ String a EmptyString) s'
  end.

(** [strings.Fields]: the maximal runs of bytes that are not white space. *)
Definition Fields (s : string) : list string := fieldsFrom EmptyString s.

(** Errors of the database: the sentinel [sql.ErrNoRows] and the others. *)
Inductive DbErr :=
| ErrNoRows
| ErrDb (text : string).

(** What the two functions read of [dt.User]. *)
Record User := {
  ID : Z;
  LocationID : Z
}.

(** [dt.Location], with the instant of [CreatedAt] as a number. *)
Record Location := {
  Name : string;
  CreatedAt : Z
}.

(** [dt.Address], the columns of the query. *)
Record Address := {
  AddrName : string;
  Line1 : string;
  Line2 : string;
  City : string;
  AddrState : string;
  Country : string;
  Zip : string
}.

Inductive Event :=
| EvGetLocation (uid : Z)
| EvGetAddress (uid : Z) (name : string).

(** The answers of the database and of the clock, and the function
    [language.QuestionLocation], which is not among the sources.  Both
    queries are made with a nil destination, [var loc *dt.Location] and
    [var addr *dt.Address]: the pointer is passed by value, so whatever the
    query does, the variable of the caller stays nil; the world answers with
    the error alone. *)
Record World := {
  GetLocationRow : Z -> option DbErr;
  GetAddressRow : Z -> string -> option DbErr;
  (** [time.Now().AddDate(0, 0, -1)] *)
  Yesterday : Z;
  QuestionLocation : string -> string
}.

(** The body of the loop of [GetAddress] over the fields, with its
    [break]: the first field that is "home" or "office", or the zero
    value. *)
Fixpoint firstPlace (fields : list string) : string :=
  match fields with
  | [] => EmptyString
  | w :: fields' =>
      if String.eqb w "home" || String.eqb w "office" then w
      else firstPlace fields'
  end.

(** [GetAddress]: trace, address, error. *)
Definition GetAddress (w : World) (u : User) (sent : string)
    : list Event * (option Address * option DbErr) :=
  let val := firstPlace (Fields sent) in
  if (String.length val =? 0)%nat then ([], (None, None))
  else
    let addr : option Address := None in
    match GetAddressRow w (ID u) val with
    | Some err => ([EvGetAddress (ID u) val], (None, Some err))
    | None => ([EvGetAddress (ID u) val], (addr, None))
    end.

(** [GetLocation]: trace, and location, question, error when it returns.
    [loc.CreatedAt] and [loc.Name] go through the pointer [loc]. *)
Definition GetLocation (w : World) (u : User)
    : list Event * Outcome (option Location * string * option DbErr) :=
  let loc : option Location := None in
  if LocationID u =? 0 then
    ([], Returns (loc, QuestionLocation w EmptyString, None))
  else
    let err := GetLocationRow w (ID u) in
    let evs := [EvGetLocation (ID u)] in
    match err with
    | Some ErrNoRows =>
        (evs, Returns (loc, QuestionLocation w EmptyString, None))
    | Some err => (evs, Returns (loc, EmptyString, Some err))
    | None =>
        match loc with
        | None => (evs, Panics)
        | Some l =>
            if CreatedAt l <? Yesterday w
            then (evs, Returns (loc, QuestionLocation w (Name l), None))
            else (evs, Returns (loc, EmptyString, None))
        end
    end.

(** *** A user and two databases *)

Definition carol : User := {| ID := 3; LocationID := 12 |}.

(** No row is found. *)
Definition emptyDb : World :=
  {| GetLocationRow := fun _ => Some ErrNoRows;
     GetAddressRow := fun _ _ => Some ErrNoRows;
     Yesterday := 0;
     QuestionLocation := fun place => "Where are you? " +:+ place |}.

(** Every query reports success. *)
Definition obligingDb : World :=
  {| GetLocationRow := fun _ => None;
     GetAddressRow := fun _ _ => None;
     Yesterday := 0;
     QuestionLocation := fun place => "Where are you? " +:+ place |}.

End Knowledge.

(** The two words [GetAddress] looks for. *)
Definition isPlace (f : string) : Prop := f = "home" ∨ f = "office".

(** No byte of [s] is white space. *)
Fixpoint noSpace (s : string) : bool :=
  match s with
  | EmptyString => true
  | String a s' => negb (Knowledge.isSpace a) && noSpace s'
  end.

(** The charge [Purchase] asks for. *)
Definition purchaseParams (msg : Auth.Msg) (price : Z) : Auth.ChargeParams :=
  {| Auth.Amount := price; Auth.Currency := "usd";
     Auth.Desc := Auth.purchaseDesc price;
     Auth.Customer := Auth.StripeCustomerID (Auth.MsgUser msg) |}.

(** The part of [Purchase] after the authentication: the key is set, the
    card is charged, and after a charge without error the confirmation is
    mailed. *)
Definition checkout (w : Auth.World) (msg : Auth.Msg)
    (prds : list Auth.Product) (price : Z) : Auth.M unit :=
  let charge :=
    [Auth.EvSetStripeKey (Auth.Getenv w "STRIPE_ACCESS_TOKEN");
     Auth.EvChargeNew (purchaseParams msg price)] in
  match Auth.ChargeNew w (purchaseParams msg price) with
  | Some e => (charge, inr e)
  | None =>
      (charge ++ [Auth.EvSendPurchaseConfirmation prds price (Auth.MsgUser msg)],
       match Auth.SendPurchaseConfirmation w prds price (Auth.MsgUser msg) with
       | Some e => inr e
       | None => inl tt
       end)
  end.

(** The events of [RequestAuth] and nothing of the checkout. *)
Definition isRequestEvent (e : Auth.Event) : Prop :=
  match e with
  | Auth.EvSetStripeKey _ | Auth.EvChargeNew _
  | Auth.EvSendPurchaseConfirmation _ _ _ => False
  | _ => True
  end.

(** * Properties *)

(** ** Strings *)

Example ToLower_ex : ToLower "Get_Forecast9" = "get_forecast9".
Proof. reflexivity. Qed.

Example Title_ex : Title "weather" = "Weather".
Proof. reflexivity. Qed.

Example Title_words_ex : Title "my weather_app x" = "My Weather_app X".
Proof. reflexivity. Qed.

Example Split_ex :
  Split "find'some thing'" "'" = ["find"; "some thing"; EmptyString].
Proof. reflexivity. Qed.

Example firstField_ex : firstField "find'some thing'" = "find".
Proof. reflexivity. Qed.

Example Itoa_ex : Itoa 4001 = "4001" /\ Itoa (-7) = "-7" /\ Itoa 0 = "0".
Proof. repeat split; vm_compute; reflexivity. Qed.

Lemma lowerChar_idemp a : lowerChar (lowerChar a) = lowerChar a.
Proof. destruct a as [[] [] [] [] [] [] [] []]; reflexivity. Qed.

Lemma ToLower_idemp s : ToLower (ToLower s) = ToLower s.
Proof.
  induction s as [|a s IH]; simpl; [reflexivity|].
  now rewrite lowerChar_idemp, IH.
Qed.

Lemma ToLower_app s t : ToLower (s +:+ t) = ToLower s +:+ ToLower t.
Proof. induction s as [|a s IH]; simpl; [reflexivity|]. now rewrite IH. Qed.

(** Lower-casing the command first, as [RegisterPackage] does, does not
    change the compound key. *)
Lemma compoundKey_ToLower_l c o : compoundKey (ToLower c) o = compoundKey c o.
Proof.
  unfold compoundKey. now rewrite !ToLower_app, ToLower_idemp.
Qed.

Lemma compoundKey_lower c o : ToLower (compoundKey c o) = compoundKey c o.
Proof. apply ToLower_idemp. Qed.

(** Tokens that agree up to letter case have the same compound key. *)
Lemma compoundKey_case c o c' o' :
  ToLower c' = ToLower c -> ToLower o' = ToLower o ->
  compoundKey c' o' = compoundKey c o.
Proof.
  unfold compoundKey. intros Hc Ho. rewrite !ToLower_app. now rewrite Hc, Ho.
Qed.

Lemma Split_nonempty s sep : Split s sep ≠ [].
Proof.
  induction s as [|a s IH]; simpl; [discriminate|].
  destruct (Ascii.eqb a sep); [discriminate|].
  destruct (Split s sep); discriminate.
Qed.

(** [firstField] cuts a token at its first quote. *)
Lemma firstField_cons a t :
  firstField (String a t) =
  if Ascii.eqb a "'" then EmptyString else String a (firstField t).
Proof.
  unfold firstField. simpl. destruct (Ascii.eqb a "'"); [reflexivity|].
  destruct (Split t "'") eqn:E; [|reflexivity].
  now apply Split_nonempty in E.
Qed.

Lemma firstField_quoteFree t : quoteFree t = true -> firstField t = t.
Proof.
  induction t as [|a t IH]; [reflexivity|].
  simpl. rewrite firstField_cons. intros [Ha Ht]%andb_prop.
  destruct (Ascii.eqb a "'"); [discriminate|]. now rewrite IH.
Qed.

Lemma firstField_cut s r :
  quoteFree s = true -> firstField (s +:+ String "'" r) = s.
Proof.
  induction s as [|a s IH]; intros H.
  - reflexivity.
  - simpl in H. apply andb_prop in H as [Ha Hs].
    change (String a s +:+ String "'" r) with (String a (s +:+ String "'" r)).
    rewrite firstField_cons.
    destruct (Ascii.eqb a "'"); [discriminate|]. now rewrite IH.
Qed.

Lemma firstField_is_quoteFree t : quoteFree (firstField t) = true.
Proof.
  induction t as [|a t IH]; [reflexivity|].
  rewrite firstField_cons. destruct (Ascii.eqb a "'") eqn:E; [reflexivity|].
  simpl. now rewrite E, IH.
Qed.

Lemma wrapInt_small z : - 2 ^ 63 <= z < 2 ^ 63 -> wrapInt z = z.
Proof.
  intros H. unfold wrapInt. rewrite Z.mod_small; lia.
Qed.

(** ** The registry under [RegisterPackage] *)

Lemma extendsBy_refl Q st : extendsBy Q st st.
Proof. split; [exists []; now rewrite app_nil_r | auto]. Qed.

Lemma extendsBy_trans Q st1 st2 st3 :
  extendsBy Q st1 st2 -> extendsBy Q st2 st3 -> extendsBy Q st1 st3.
Proof.
  intros [(n1 & H1 & Q1) K1] [(n2 & H2 & Q2) K2]. split; [|auto].
  exists (n1 ++ n2). split; [now rewrite H2, H1, app_assoc|].
  now apply Forall_app.
Qed.

Lemma extendsBy_emit (Q : Event -> Prop) e st : Q e -> extendsBy Q st (emit e st).
Proof. intros He. split; [exists [e]; split; [reflexivity | now constructor] | auto]. Qed.

Lemma extendsBy_store Q k v st : extendsBy Q st (store k v st).
Proof.
  split; [exists []; simpl; now rewrite app_nil_r|].
  intros k' Hk. simpl. destruct (decide (k = k')) as [->|Hne].
  - rewrite lookup_insert_eq. eauto.
  - now rewrite lookup_insert_ne.
Qed.

Lemma extendsBy_weaken (Q Q' : Event -> Prop) st st' :
  (∀ e, Q e -> Q' e) -> extendsBy Q st st' -> extendsBy Q' st st'.
Proof.
  intros HQ [(new & H & HF) K]. split; [|exact K].
  exists new. split; [exact H|]. eapply Forall_impl; eauto.
Qed.

Create HintDb registry.
#[local] Hint Resolve extendsBy_refl extendsBy_emit extendsBy_store : registry.

(** A loop that only takes steps of this kind is of this kind. *)
Lemma extendsBy_fold {A} Q (f : State -> A -> State) (l : list A) :
  (∀ st a, a ∈ l -> extendsBy Q st (f st a)) ->
  ∀ st, extendsBy Q st (fold_left f l st).
Proof.
  induction l as [|a l IH]; intros Hf st; simpl.
  - apply extendsBy_refl.
  - eapply extendsBy_trans.
    + apply Hf. now left.
    + apply IH. intros st' a' Ha'. apply Hf. now right.
Qed.

(** A loop whose steps store one entry under the keys [keys a] stores it
    under all of them and leaves the other keys alone. *)
Lemma lookup_fold {A} (entry : PkgWrapper) (f : State -> A -> State)
    (keys : A -> list string) (l : list A) :
  (∀ st a k, regPkgs (f st a) !! k =
             if decide (k ∈ keys a) then Some entry else regPkgs st !! k) ->
  ∀ st k, regPkgs (fold_left f l st) !! k =
          if decide (k ∈ flat_map keys l) then Some entry else regPkgs st !! k.
Proof.
  intros Hf. induction l as [|a l IH]; intros st k; cbn [fold_left flat_map].
  - now rewrite decide_False by apply not_elem_of_nil.
  - rewrite IH, Hf.
    destruct (decide (k ∈ flat_map keys l)) as [Hl|Hl].
    + rewrite decide_True; [reflexivity|]. apply elem_of_app. now right.
    + destruct (decide (k ∈ keys a)) as [Ha|Ha].
      * rewrite decide_True; [reflexivity|]. apply elem_of_app. now left.
      * rewrite decide_False; [reflexivity|].
        intros [?|?]%elem_of_app; contradiction.
Qed.

(** A step that emits [e], inside a loop whose steps are of the kind above:
    [e] is among the events of the loop. *)
Lemma fold_emits {A} Q (f : State -> A -> State) (hit : State -> A -> Prop)
    (e : Event) (l : list A) :
  (∀ st a, a ∈ l -> extendsBy Q st (f st a)) ->
  (∀ st a, hit st a -> ∃ new, trace (f st a) = trace st ++ new ∧ e ∈ new) ->
  (∀ st st' a, extendsBy Q st st' -> hit st a -> hit st' a) ->
  ∀ st a, a ∈ l -> hit st a ->
  ∃ new, trace (fold_left f l st) = trace st ++ new ∧ e ∈ new.
Proof.
  induction l as [|a' l IH]; intros Hext Hemit Hmono st a Ha Hhit.
  - now apply elem_of_nil in Ha.
  - assert (∀ st a, a ∈ l -> extendsBy Q st (f st a)) as Htail
      by (intros st0 a0 H0; apply Hext; now right).
    assert (extendsBy Q st (f st a')) as Hstep by (apply Hext; now left).
    simpl. apply elem_of_cons in Ha as [->|Ha].
    + destruct (Hemit st a' Hhit) as (n1 & H1 & Hin).
      destruct (extendsBy_fold Q f l Htail (f st a')) as [(n2 & H2 & _) _].
      exists (n1 ++ n2). split; [now rewrite H2, H1, app_assoc|].
      apply elem_of_app. now left.
    + pose proof (Hmono _ _ _ Hstep Hhit) as Hhit'.
      destruct Hstep as [(n1 & H1 & Q1) K1].
      destruct (IH Htail Hemit Hmono (f st a') a Ha Hhit') as (n2 & H2 & Hin).
      exists (n1 ++ n2). split; [now rewrite H2, H1, app_assoc|].
      apply elem_of_app. now right.
Qed.

Lemma flat_map_single {A B} (f : A -> B) (l : list A) :
  flat_map (fun a => [f a]) l = map f l.
Proof.
  induction l as [|a l IH]; [reflexivity|].
  cbn [flat_map map app]. now rewrite IH.
Qed.

Section Registration.

Variables (p : Pkg) (cl : Client).

Lemma registerObject_extends c st o :
  c ∈ Commands (Trigger p) -> o ∈ Objects (Trigger p) ->
  extendsBy (isWarning p) st (registerObject p cl (ToLower c) st o).
Proof.
  intros Hc Ho. unfold registerObject, println.
  destruct (regPkgs st !! _).
  - eapply extendsBy_trans; [apply extendsBy_emit | apply extendsBy_store].
    exists c, o. fold (compoundKey (ToLower c) o).
    now rewrite compoundKey_ToLower_l.
  - apply extendsBy_store.
Qed.

Lemma registerObject_lookup c st o k :
  regPkgs (registerObject p cl c st o) !! k =
  if decide (k ∈ [compoundKey c o]) then Some {| P := p; RPCClient := cl |}
  else regPkgs st !! k.
Proof.
  unfold registerObject. fold (compoundKey c o).
  assert (regPkgs (store (compoundKey c o) {| P := p; RPCClient := cl |} st) !! k =
          if decide (k ∈ [compoundKey c o]) then Some {| P := p; RPCClient := cl |}
          else regPkgs st !! k) as Hstore.
  { simpl. destruct (decide (k ∈ [compoundKey c o])) as [Hk|Hk].
    - apply list_elem_of_singleton in Hk as ->. apply lookup_insert_eq.
    - apply lookup_insert_ne. intros <-. apply Hk, list_elem_of_singleton.
      reflexivity. }
  destruct (regPkgs st !! compoundKey c o); exact Hstore.
Qed.

(** A compound key that is taken when its pair is reached draws the
    warning. *)
Lemma registerObject_warns c st o :
  is_Some (regPkgs st !! compoundKey c o) ->
  ∃ new, trace (registerObject p cl c st o) = trace st ++ new ∧
         Println (LogWarnDuplicate (Name (Config p)) (compoundKey c o)) ∈ new.
Proof.
  intros [e He]. unfold registerObject. fold (compoundKey c o). rewrite He.
  eexists. split; [reflexivity|]. apply list_elem_of_singleton. reflexivity.
Qed.

Lemma objects_extends c st :
  c ∈ Commands (Trigger p) ->
  extendsBy (isWarning p) st
    (fold_left (registerObject p cl (ToLower c)) (Objects (Trigger p)) st).
Proof.
  intros Hc. apply extendsBy_fold. intros. now apply registerObject_extends.
Qed.

Lemma registerCommand_extends st c :
  c ∈ Commands (Trigger p) ->
  extendsBy (isWarning p) st (registerCommand p cl st c).
Proof.
  intros Hc. unfold registerCommand.
  eapply extendsBy_trans; [exact (objects_extends c st Hc) | apply extendsBy_store].
Qed.

Lemma registerCommand_lookup st c k :
  regPkgs (registerCommand p cl st c) !! k =
  if decide (k ∈ commandKeys p c) then Some {| P := p; RPCClient := cl |}
  else regPkgs st !! k.
Proof.
  unfold registerCommand, commandKeys. simpl.
  pose proof (lookup_fold {| P := p; RPCClient := cl |} (registerObject p cl (ToLower c))
                (fun o => [compoundKey (ToLower c) o]) (Objects (Trigger p))
                (registerObject_lookup (ToLower c)) st k) as Hobj.
  assert (flat_map (fun o => [compoundKey (ToLower c) o]) (Objects (Trigger p))
          = map (fun o => compoundKey (ToLower c) o) (Objects (Trigger p)))
    as Hflat by apply flat_map_single.
  rewrite Hflat in Hobj.
  destruct (decide (k = ToLower c)) as [->|Hne].
  - rewrite lookup_insert_eq, decide_True; [reflexivity|].
    apply elem_of_app. right. apply list_elem_of_singleton. reflexivity.
  - rewrite lookup_insert_ne by (intros E; now apply Hne). rewrite Hobj.
    destruct (decide (k ∈ map _ (Objects (Trigger p)))) as [Hk|Hk].
    + rewrite decide_True; [reflexivity|]. apply elem_of_app. now left.
    + rewrite decide_False; [reflexivity|].
      intros [?|Hc%list_elem_of_singleton]%elem_of_app; contradiction.
Qed.

Lemma registerCommand_warns st c o :
  c ∈ Commands (Trigger p) -> o ∈ Objects (Trigger p) ->
  is_Some (regPkgs st !! compoundKey c o) ->
  ∃ new, trace (registerCommand p cl st c) = trace st ++ new ∧
         Println (LogWarnDuplicate (Name (Config p)) (compoundKey c o)) ∈ new.
Proof.
  intros Hc Ho Hk. unfold registerCommand. simpl.
  rewrite <- (compoundKey_ToLower_l c o) in Hk |- *.
  eapply (fold_emits (isWarning p) (registerObject p cl (ToLower c))
            (fun st a =>
               a = o ∧ is_Some (regPkgs st !! compoundKey (ToLower c) o)));
    [| | | exact Ho | split; [reflexivity | exact Hk]].
  - intros. now apply registerObject_extends.
  - intros st0 a [-> Ha]. now apply registerObject_warns.
  - intros st0 st' a [_ K] [-> Ha]. split; [reflexivity | now apply K].
Qed.

Lemma commands_extends st :
  extendsBy (isWarning p) st
    (fold_left (registerCommand p cl) (Commands (Trigger p)) st).
Proof. apply extendsBy_fold. intros. now apply registerCommand_extends. Qed.

Lemma commands_lookup cs st k :
  regPkgs (fold_left (registerCommand p cl) cs st) !! k =
  if decide (k ∈ flat_map (commandKeys p) cs) then Some {| P := p; RPCClient := cl |}
  else regPkgs st !! k.
Proof. apply lookup_fold. intros. apply registerCommand_lookup. Qed.

Lemma commands_warn st c o :
  c ∈ Commands (Trigger p) -> o ∈ Objects (Trigger p) ->
  is_Some (regPkgs st !! compoundKey c o) ->
  ∃ new, trace (fold_left (registerCommand p cl) (Commands (Trigger p)) st)
         = trace st ++ new ∧
         Println (LogWarnDuplicate (Name (Config p)) (compoundKey c o)) ∈ new.
Proof.
  intros Hc Ho Hk.
  eapply (fold_emits (isWarning p) (registerCommand p cl)
            (fun st a => a = c ∧ is_Some (regPkgs st !! compoundKey c o)));
    [| | | exact Hc | split; [reflexivity | exact Hk]].
  - intros. now apply registerCommand_extends.
  - intros st0 a [-> Ha]. now apply registerCommand_warns.
  - intros st0 st' a [_ K] [-> Ha]. split; [reflexivity | now apply K].
Qed.

End Registration.

(** The keys of a registration are its compound keys and its lower-cased
    commands. *)
Lemma triggerKeys_shape p k :
  k ∈ triggerKeys p <-> compoundOf p k ∨ bareCommandOf p k.
Proof.
  unfold triggerKeys, compoundOf, bareCommandOf, commandKeys.
  rewrite list_elem_of_In, in_flat_map. split.
  - intros (c & Hc%list_elem_of_In & Hk). apply in_app_or in Hk as [Hk|Hk].
    + apply in_map_iff in Hk as (o & <- & Ho%list_elem_of_In). left.
      exists c, o. now rewrite compoundKey_ToLower_l.
    + destruct Hk as [<-|[]]. right. now exists c.
  - intros [(c & o & Hc & Ho & ->)|(c & Hc & ->)]; exists c;
      (split; [now apply list_elem_of_In|]); apply in_or_app.
    + left. apply in_map_iff. exists o.
      rewrite compoundKey_ToLower_l. split; [reflexivity|].
      now apply list_elem_of_In.
    + right. now left.
Qed.

(** *** The whole registration *)

Lemma RegisterPackage_unreachable w p st err :
  Dial w "tcp" (listenAddr p) = inl err ->
  RegisterPackage w p st =
  (println LogBugHere
     (emit (Dialed "tcp" (listenAddr p))
        (println (LogRegistering (wrapInt (Port (Config p) + 1))) st)),
   Some err).
Proof.
  intros H. unfold RegisterPackage. fold (listenAddr p). now rewrite H.
Qed.

Lemma RegisterPackage_reachable w p st cl :
  Dial w "tcp" (listenAddr p) = inr cl ->
  RegisterPackage w p st =
  (fold_left (registerCommand p cl) (Commands (Trigger p))
     (emit (Dialed "tcp" (listenAddr p))
        (println (LogRegistering (wrapInt (Port (Config p) + 1))) st)),
   None).
Proof.
  intros H. unfold RegisterPackage. fold (listenAddr p). now rewrite H.
Qed.

(** The port dialed is the configured port plus one, for every port but the
    largest [int]. *)
Lemma listenAddr_next_port p :
  - 2 ^ 63 <= Port (Config p) < 2 ^ 63 - 1 ->
  listenAddr p = ServerAddress (Config p) +:+ ":" +:+ Itoa (Port (Config p) + 1).
Proof.
  intros H. unfold listenAddr. rewrite wrapInt_small by lia. reflexivity.
Qed.

Example listenAddr_weather : listenAddr weather = "localhost:4001".
Proof. vm_compute. reflexivity. Qed.

(** C8: when the dial to the skill's endpoint (its host, the port after its
    configured one) fails, [RegisterPackage] returns that error and the
    registry is what it was: no key of the skill's trigger is stored, and a
    key that was free before is free after. *)
Theorem RegisterPackage_dial_error w p st err :
  Dial w "tcp"
    (ServerAddress (Config p) +:+ ":" +:+ Itoa (wrapInt (Port (Config p) + 1)))
    = inl err ->
  (RegisterPackage w p st).2 = Some err ∧
  regPkgs (RegisterPackage w p st).1 = regPkgs st ∧
  (∀ k, k ∈ triggerKeys p -> regPkgs st !! k = None ->
        regPkgs (RegisterPackage w p st).1 !! k = None) ∧
  trace (RegisterPackage w p st).1 =
    trace st ++ [Println (LogRegistering (wrapInt (Port (Config p) + 1)));
                 Dialed "tcp" (listenAddr p);
                 Println LogBugHere].
Proof.
  intros H. rewrite (RegisterPackage_unreachable w p st err H). simpl.
  repeat split; auto.
  now rewrite <- !app_assoc.
Qed.

Lemma RegisterPackage_dial_error_witness :
  (RegisterPackage deafWorld weather initState).2
    = Some (ErrOther "connection refused") ∧
  regPkgs (RegisterPackage deafWorld weather initState).1 = regPkgs initState ∧
  (∀ k, k ∈ triggerKeys weather -> regPkgs initState !! k = None ->
        regPkgs (RegisterPackage deafWorld weather initState).1 !! k = None) ∧
  trace (RegisterPackage deafWorld weather initState).1 =
    trace initState ++
      [Println (LogRegistering (wrapInt (Port (Config weather) + 1)));
       Dialed "tcp" (listenAddr weather);
       Println LogBugHere].
Proof.
  apply (RegisterPackage_dial_error deafWorld weather initState
           (ErrOther "connection refused")).
  reflexivity.
Defined.

(** C7, as the code has it: when the dial succeeds the registration does not
    fail, every key of the trigger (compound keys and bare command keys alike)
    maps to the new entry afterwards whatever it mapped to before, the other
    keys are untouched, and the only lines printed by the loops are warnings
    that name the skill and a compound key of its trigger, one (at least) for
    every compound key that was taken. *)
Theorem RegisterPackage_last_writer_wins w p st cl :
  Dial w "tcp" (listenAddr p) = inr cl ->
  let st' := (RegisterPackage w p st).1 in
  (RegisterPackage w p st).2 = None ∧
  (∀ k, k ∈ triggerKeys p ->
        regPkgs st' !! k = Some {| P := p; RPCClient := cl |}) ∧
  (∀ k, k ∉ triggerKeys p -> regPkgs st' !! k = regPkgs st !! k) ∧
  (∃ new,
      trace st' =
        trace st ++ Println (LogRegistering (wrapInt (Port (Config p) + 1)))
                 :: Dialed "tcp" (listenAddr p) :: new ∧
      Forall (isWarning p) new ∧
      (∀ c o, c ∈ Commands (Trigger p) -> o ∈ Objects (Trigger p) ->
              is_Some (regPkgs st !! compoundKey c o) ->
              Println (LogWarnDuplicate (Name (Config p)) (compoundKey c o))
                ∈ new)).
Proof.
  intros H st'. subst st'. rewrite (RegisterPackage_reachable w p st cl H).
  cbn [fst snd].
  set (st0 := emit _ (println _ st)).
  assert (regPkgs st0 = regPkgs st) as Hreg by reflexivity.
  assert (trace st0 =
          trace st ++ [Println (LogRegistering (wrapInt (Port (Config p) + 1)));
                       Dialed "tcp" (listenAddr p)]) as Htr
      by (subst st0; simpl; now rewrite <- app_assoc).
  split; [reflexivity|]. split; [|split].
  - intros k Hk. rewrite commands_lookup. fold (triggerKeys p).
    now rewrite decide_True.
  - intros k Hk. rewrite commands_lookup. fold (triggerKeys p).
    now rewrite decide_False, Hreg.
  - destruct (commands_extends p cl st0) as [(new & Hnew & HQ) _].
    exists new. split; [|split].
    + rewrite Hnew, Htr, <- app_assoc. reflexivity.
    + exact HQ.
    + intros c o Hc Ho Hk. rewrite <- Hreg in Hk.
      destruct (commands_warn p cl st0 c o Hc Ho Hk) as (new' & Hnew' & Hin).
      rewrite Hnew in Hnew'. apply app_inv_head in Hnew'. now subst new'.
Qed.

Lemma RegisterPackage_last_writer_wins_witness :
  Dial quietWorld "tcp" (listenAddr weather) = inr someClient ∧
  (RegisterPackage quietWorld weather weatherState).2 = None ∧
  regPkgs (RegisterPackage quietWorld weather weatherState).1 !! "get_forecast"
    = Some {| P := weather; RPCClient := someClient |} ∧
  Println (LogWarnDuplicate "weather" "get_forecast")
    ∈ trace (RegisterPackage quietWorld weather weatherState).1.
Proof.
  assert (Dial quietWorld "tcp" (listenAddr weather) = inr someClient) as H
    by reflexivity.
  destruct (RegisterPackage_last_writer_wins
              quietWorld weather weatherState someClient H)
    as (Herr & Hkeys & _ & new & Htr & _ & Hwarn).
  split; [exact H|]. split; [exact Herr|]. split.
  - apply Hkeys. apply list_elem_of_In. vm_compute. now left.
  - rewrite Htr. apply elem_of_app. right.
    do 2 (apply elem_of_cons; right).
    apply (Hwarn "get" "forecast").
    + apply list_elem_of_In. now left.
    + apply list_elem_of_In. now left.
    + eexists. vm_compute. reflexivity.
Defined.

(** C7, the sentence as written fails: [getter] declares the command "get"
    and no object, the key "get" is taken by [weather]; the registration
    overwrites the entry and prints no warning. *)
Lemma bare_command_collision_is_silent :
  ¬ (∀ w p st cl k,
        Dial w "tcp" (listenAddr p) = inr cl ->
        k ∈ triggerKeys p -> is_Some (regPkgs st !! k) ->
        regPkgs (RegisterPackage w p st).1 !! k
          = Some {| P := p; RPCClient := cl |} ∧
        Println (LogWarnDuplicate (Name (Config p)) k)
          ∈ trace (RegisterPackage w p st).1).
Proof.
  intros H.
  destruct (H quietWorld getter weatherState someClient "get") as [_ Hin].
  - reflexivity.
  - apply list_elem_of_In. vm_compute. now left.
  - eexists. vm_compute. reflexivity.
  - apply list_elem_of_In in Hin. vm_compute in Hin.
    repeat (destruct Hin as [Hin|Hin]; [discriminate Hin|]). exact Hin.
Qed.

Example bare_command_collision_trace :
  regPkgs weatherState !! "get" = Some {| P := weather; RPCClient := someClient |} ∧
  regPkgs (RegisterPackage quietWorld getter weatherState).1 !! "get"
    = Some {| P := getter; RPCClient := someClient |} ∧
  trace (RegisterPackage quietWorld getter weatherState).1 =
    trace weatherState ++
      [Println (LogRegistering 4101); Dialed "tcp" "localhost:4101"].
Proof. vm_compute. repeat split. Qed.

(** ** The resolver: [getPkg] *)

Lemma logged_nil st : logged [] st = st.
Proof. destruct st. unfold logged. simpl. now rewrite app_nil_r. Qed.

Lemma logged_emit e evs st : logged evs (emit e st) = logged (e :: evs) st.
Proof. unfold logged, emit. simpl. now rewrite <- app_assoc. Qed.

Lemma logged_logged evs1 evs2 st :
  logged evs2 (logged evs1 st) = logged (evs1 ++ evs2) st.
Proof. unfold logged. simpl. now rewrite app_assoc. Qed.


(** The inner loop when no pair of [c] with an object of [os] is a key: it
    runs through, prints one line per object, and leaves in [p] the bare
    lookup of the last object. *)
Lemma objectLoop_miss c os st v :
  (∀ o, o ∈ os -> regPkgs st !! compoundKey c (firstField o) = None) ->
  ∃ v', objectLoop c os st v = (logged (searchLines c os) st, v', false) ∧
        (os = [] -> v' = v) ∧
        ((∀ o, o ∈ os -> regPkgs st !! firstField o = None) ->
         shortRoute_ v' = shortRoute_ v).
Proof.
  revert st v. induction os as [|o os IH]; intros st v Hmiss.
  - exists v. simpl. now rewrite logged_nil.
  - cbn [objectLoop]. fold (compoundKey c (firstField o)). unfold println.
    rewrite (Hmiss o) by now left.
    set (v1 := {| p_ := _; route_ := _; shortRoute_ := _ |}).
    destruct (IH (emit (Println (LogSearching (compoundKey c (firstField o)))) st) v1)
      as (v' & Hrun & _ & Hshort).
    { intros o' Ho'. simpl. apply Hmiss. now right. }
    exists v'. split; [|split].
    + rewrite Hrun, logged_emit. reflexivity.
    + discriminate.
    + intros Hbare. rewrite Hshort.
      * subst v1. simpl. now rewrite (Hbare o) by now left.
      * intros o' Ho'. simpl. apply Hbare. now right.
Qed.

(** The inner loop when the pair of [c] with [o] is the first that is a
    key: it stops there with that entry and that key, and forgets the
    short route. *)
Lemma objectLoop_hit c os1 o os2 st v e :
  (∀ o', o' ∈ os1 -> regPkgs st !! compoundKey c (firstField o') = None) ->
  regPkgs st !! compoundKey c (firstField o) = Some e ->
  objectLoop c (os1 ++ o :: os2) st v =
  (logged (searchLines c (os1 ++ [o])) st,
   {| p_ := Some e; route_ := compoundKey c (firstField o);
      shortRoute_ := EmptyString |},
   true).
Proof.
  revert st v. induction os1 as [|o1 os1 IH]; intros st v Hmiss Hhit.
  - cbn [app objectLoop]. fold (compoundKey c (firstField o)). now rewrite Hhit.
  - cbn [app objectLoop]. fold (compoundKey c (firstField o1)). unfold println.
    rewrite (Hmiss o1) by now left.
    rewrite IH.
    + now rewrite logged_emit.
    + intros o' Ho'. simpl. apply Hmiss. now right.
    + exact Hhit.
Qed.

(** The outer loop when no pair at all is a key: every round runs through,
    and [p] ends as the bare lookup of the last command. *)
Lemma commandLoop_miss cs os st v :
  (∀ c o, c ∈ cs -> o ∈ os ->
          regPkgs st !! compoundKey (firstField c) (firstField o) = None) ->
  ∃ v', commandLoop cs os st v = (logged (searchRounds cs os) st, v') ∧
        (cs = [] -> v' = v) ∧
        (∀ cs' c, cs = cs' ++ [c] -> p_ v' = regPkgs st !! firstField c) ∧
        (∀ cs' c e, cs = cs' ++ [c] -> regPkgs st !! firstField c = Some e ->
                    shortRoute_ v' = firstField c) ∧
        ((∀ o, o ∈ os -> regPkgs st !! firstField o = None) ->
         (∀ c, c ∈ cs -> regPkgs st !! firstField c = None) ->
         shortRoute_ v' = shortRoute_ v).
Proof.
  revert st v. induction cs as [|c cs IH]; intros st v Hmiss.
  - exists v. simpl. rewrite logged_nil. repeat split; auto.
    + intros [|? ?] ? ?; discriminate.
    + intros [|? ?] ? ? ?; discriminate.
  - cbn [commandLoop].
    destruct (objectLoop_miss (firstField c) os st v) as (v1 & Hrun & _ & Hs1).
    { intros o Ho. apply Hmiss; [now left | exact Ho]. }
    rewrite Hrun. cbn [regPkgs logged].
    set (v2 := {| p_ := _; route_ := _; shortRoute_ := _ |}).
    destruct (IH (logged (searchLines (firstField c) os) st) v2)
      as (v' & Hrun' & Hnil & Hlast & Hkey & Hs2).
    { intros c' o Hc' Ho. simpl. apply Hmiss; [now right | exact Ho]. }
    exists v'. split; [|split; [|split; [|split]]].
    + rewrite Hrun', logged_logged. reflexivity.
    + discriminate.
    + intros cs' c' Heq. destruct cs as [|c2 cs].
      * destruct cs' as [|? [|? ?]]; try discriminate.
        injection Heq as <-. now rewrite (Hnil eq_refl).
      * destruct cs' as [|c3 cs']; [discriminate|].
        injection Heq as _ Heq. exact (Hlast cs' c' Heq).
    + intros cs' c' e Heq Hsome. destruct cs as [|c2 cs].
      * destruct cs' as [|? [|? ?]]; try discriminate.
        injection Heq as <-. rewrite (Hnil eq_refl). subst v2. simpl.
        now rewrite Hsome.
      * destruct cs' as [|c3 cs']; [discriminate|].
        injection Heq as _ Heq. exact (Hkey cs' c' e Heq Hsome).
    + intros Hobj Hcmd. rewrite Hs2.
      * subst v2. simpl. rewrite (Hcmd c) by now left. now apply Hs1.
      * exact Hobj.
      * intros c' Hc'. apply Hcmd. now right.
Qed.

(** The outer loop when a pair is a key: with [c], [o] the first such pair
    in the order of the loops, it stops there. *)
Lemma commandLoop_hit cs1 c cs2 os1 o os2 st v e :
  (∀ c' o', c' ∈ cs1 -> o' ∈ os1 ++ o :: os2 ->
            regPkgs st !! compoundKey (firstField c') (firstField o') = None) ->
  (∀ o', o' ∈ os1 ->
         regPkgs st !! compoundKey (firstField c) (firstField o') = None) ->
  regPkgs st !! compoundKey (firstField c) (firstField o) = Some e ->
  commandLoop (cs1 ++ c :: cs2) (os1 ++ o :: os2) st v =
  (logged (searchRounds cs1 (os1 ++ o :: os2)
           ++ searchLines (firstField c) (os1 ++ [o])) st,
   {| p_ := Some e; route_ := compoundKey (firstField c) (firstField o);
      shortRoute_ := EmptyString |}).
Proof.
  revert st v. induction cs1 as [|c1 cs1 IH]; intros st v Hrounds Hmiss Hhit.
  - cbn [app commandLoop]. now rewrite (objectLoop_hit _ os1 o os2 st v e).
  - cbn [app commandLoop].
    destruct (objectLoop_miss (firstField c1) (os1 ++ o :: os2) st v)
      as (v1 & Hrun & _).
    { intros o' Ho'. apply Hrounds; [now left | exact Ho']. }
    rewrite Hrun. rewrite IH.
    + rewrite logged_logged. unfold searchRounds. cbn [flat_map].
      now rewrite <- app_assoc.
    + intros c' o' Hc' Ho'. simpl. apply Hrounds; [now right | exact Ho'].
    + exact Hmiss.
    + exact Hhit.
Qed.

Lemma objectLoop_regPkgs c os st v :
  regPkgs (objectLoop c os st v).1.1 = regPkgs st.
Proof.
  revert st v. induction os as [|o os IH]; intros st v; [reflexivity|].
  cbn [objectLoop]. destruct (regPkgs st !! _); [reflexivity|].
  now rewrite IH.
Qed.

Lemma commandLoop_regPkgs cs os st v :
  regPkgs (commandLoop cs os st v).1 = regPkgs st.
Proof.
  revert st v. induction cs as [|c cs IH]; intros st v; [reflexivity|].
  cbn [commandLoop].
  pose proof (objectLoop_regPkgs (firstField c) os st v) as Hobj.
  destruct (objectLoop (firstField c) os st v) as [[st1 v1] broke].
  simpl in Hobj. destruct broke; [exact Hobj|]. now rewrite IH.
Qed.




(** C5: without a user [getPkg] answers from the key "onboard" alone: the
    entry and the route "onboard" when the key is taken,
    [ErrMissingPackage] when it is not; the tokens of the utterance play no
    part, two utterances without a user are answered alike. *)
Theorem getPkg_without_user w m st :
  MsgUser m = None ->
  getPkg w m st =
    match regPkgs st !! "onboard" with
    | Some e => (st, m, (Some e, "onboard", false, None))
    | None =>
        (println LogMissingOnboard st, m,
         (None, "onboard", false, Some ErrMissingPackage))
    end ∧
  (∀ m', MsgUser m' = None ->
         (getPkg w m' st).2 = (getPkg w m st).2 ∧
         (getPkg w m' st).1.1 = (getPkg w m st).1.1).
Proof.
  intros Hu. split.
  - unfold getPkg. rewrite Hu. now destruct (regPkgs st !! "onboard").
  - intros m' Hu'. unfold getPkg. rewrite Hu, Hu'.
    now destruct (regPkgs st !! "onboard").
Qed.

Lemma getPkg_without_user_witness :
  getPkg quietWorld (utterance None ["get"] ["forecast"]) weatherState =
    (println LogMissingOnboard weatherState,
     utterance None ["get"] ["forecast"],
     (None, "onboard", false, Some ErrMissingPackage)).
Proof.
  destruct (getPkg_without_user quietWorld
              (utterance None ["get"] ["forecast"]) weatherState eq_refl)
    as [H _].
  rewrite H. reflexivity.
Defined.

(** C2: with a user, let [c], [o] be the first pair, commands outer and
    objects inner, whose compound key (each token cut at its first quote,
    the whole lower-cased) is in the registry.  Then [getPkg] returns that
    entry and that key without error; it has searched the pairs up to this
    one and no further; what the bare lookups of the earlier pairs found
    plays no part; the message is as it was. *)
Theorem getPkg_exact_match w m u st cs1 c cs2 os1 o os2 e :
  MsgUser m = Some u ->
  msgCommands m = cs1 ++ c :: cs2 ->
  msgObjects m = os1 ++ o :: os2 ->
  (∀ c' o', c' ∈ cs1 -> o' ∈ msgObjects m ->
            regPkgs st !! ToLower (firstField c' +:+ "_" +:+ firstField o')
              = None) ->
  (∀ o', o' ∈ os1 ->
         regPkgs st !! ToLower (firstField c +:+ "_" +:+ firstField o')
           = None) ->
  regPkgs st !! ToLower (firstField c +:+ "_" +:+ firstField o) = Some e ->
  getPkg w m st =
    (logged (searchRounds cs1 (msgObjects m)
             ++ searchLines (firstField c) (os1 ++ [o])) st,
     m,
     (Some e, ToLower (firstField c +:+ "_" +:+ firstField o), false, None)).
Proof.
  intros Hu Hcs Hos Hrounds Hmiss Hhit.
  unfold getPkg. rewrite Hu, Hcs. rewrite Hos in *.
  rewrite (commandLoop_hit cs1 c cs2 os1 o os2 st zeroVars e Hrounds Hmiss Hhit).
  reflexivity.
Qed.

Lemma getPkg_exact_match_witness :
  getPkg quietWorld
    (utterance (Some alice) ["find"; "GET'x"; "get"]
                            ["me"; "Forecast'tomorrow"; "forecast"])
    weatherState =
  (logged [Println (LogSearching "find_me");
           Println (LogSearching "find_forecast");
           Println (LogSearching "find_forecast");
           Println (LogSearching "get_me");
           Println (LogSearching "get_forecast")] weatherState,
   utterance (Some alice) ["find"; "GET'x"; "get"]
                          ["me"; "Forecast'tomorrow"; "forecast"],
   (Some {| P := weather; RPCClient := someClient |},
    "get_forecast", false, None)).
Proof.
  rewrite (getPkg_exact_match quietWorld
             (utterance (Some alice) ["find"; "GET'x"; "get"]
                                     ["me"; "Forecast'tomorrow"; "forecast"])
             alice weatherState
             ["find"] "GET'x" ["get"] ["me"] "Forecast'tomorrow" ["forecast"]
             {| P := weather; RPCClient := someClient |}).
  - reflexivity.
  - reflexivity.
  - reflexivity.
  - reflexivity.
  - intros c' o' Hc Ho. apply list_elem_of_In in Hc, Ho. simpl in Hc, Ho.
    destruct Hc as [<-|[]].
    destruct Ho as [<-|[<-|[<-|[]]]]; vm_compute; reflexivity.
  - intros o' Ho. apply list_elem_of_In in Ho. simpl in Ho.
    destruct Ho as [<-|[]]. vm_compute. reflexivity.
  - vm_compute. reflexivity.
Defined.

(** [getPkg] reads the registry and never writes it. *)
Lemma getPkg_regPkgs w m st : regPkgs (getPkg w m st).1.1 = regPkgs st.
Proof.
  unfold getPkg. destruct (MsgUser m) as [u|].
  - pose proof (commandLoop_regPkgs (msgCommands m) (msgObjects m) st zeroVars)
      as Hreg.
    destruct (commandLoop _ _ st zeroVars) as [st' v]. simpl in Hreg.
    destruct (p_ v) as [e|]; [exact Hreg|].
    unfold GetLastResponse.
    destruct (QueryLastResponse w m) as [r [err|]]; [exact Hreg|].
    destruct r as [last|]; simpl; [|exact Hreg].
    destruct (regPkgs st' !! RespRoute last); exact Hreg.
  - now destruct (regPkgs st !! "onboard").
Qed.

(** ** The dispatcher: [callPkg] *)

Lemma callPkg_regPkgs w m ctxAdded st :
  regPkgs (callPkg w m ctxAdded st).1.1 = regPkgs st.
Proof.
  unfold callPkg. pose proof (getPkg_regPkgs w m st) as Hreg.
  destruct (getPkg w m st) as [[st1 m1] [[[pw route] lastRoute] err]].
  simpl in Hreg. destruct err as [err|]; [exact Hreg|].
  destruct pw as [pw|]; [|exact Hreg].
  destruct (ctxAdded || lastRoute || (length (msgCommands m1) =? 0)%nat);
    destruct (Call w _ _ _) as [reply [err|]]; exact Hreg.
Qed.



(** The same utterance with the caller's flag set, and an utterance without
    commands: ".FollowUp". *)
Example callPkg_followUp_flag :
  Called someClient "Weather.FollowUp"
    (setRoute "get_forecast" (utterance (Some alice) ["get"] ["forecast"]))
  ∈ trace (callPkg quietWorld (utterance (Some alice) ["get"] ["forecast"])
             true weatherState).1.1.
Proof. apply list_elem_of_In. vm_compute. tauto. Qed.

Example callPkg_followUp_no_commands :
  Called someClient "Weather.FollowUp"
    (setRoute "get_forecast" (utterance (Some alice) [] ["forecast"]))
  ∈ trace (callPkg (worldWithLast "get_forecast")
             (utterance (Some alice) [] ["forecast"]) false weatherState).1.1.
Proof. apply list_elem_of_In. vm_compute. tauto. Qed.

(** ** Fallbacks of the resolver *)

(** X7: what the loops leave when no compound key matches: [p] is the bare
    lookup of the last command and of nothing else.  So the one fallback
    [getPkg] returns from the tokens is the last command, when it is a key
    (and not the empty string), and then without asking for the last
    response. *)
Lemma getPkg_last_command_fallback w m u st cs c e :
  MsgUser m = Some u ->
  msgCommands m = cs ++ [c] ->
  (∀ c' o', c' ∈ msgCommands m -> o' ∈ msgObjects m ->
            regPkgs st !! compoundKey (firstField c') (firstField o') = None) ->
  regPkgs st !! firstField c = Some e ->
  firstField c ≠ EmptyString ->
  getPkg w m st =
    (logged (searchRounds (msgCommands m) (msgObjects m)) st, m,
     (Some e, firstField c, false, None)).
Proof.
  intros Hu Hcs Hmiss Hsome Hne. unfold getPkg. rewrite Hu.
  destruct (commandLoop_miss (msgCommands m) (msgObjects m) st zeroVars Hmiss)
    as (v' & Hrun & _ & Hp & Hshort & _).
  rewrite Hrun, (Hp cs c Hcs), Hsome, (Hshort cs c e Hcs Hsome).
  destruct (firstField c); [contradiction|]. reflexivity.
Qed.

(** When the last command is not a key, [p] is [nil] after the loops,
    whatever the bare lookups found before, and [getPkg] goes on to the last
    response. *)
Lemma commandLoop_last_command_unknown m st cs c :
  msgCommands m = cs ++ [c] ->
  (∀ c' o', c' ∈ msgCommands m -> o' ∈ msgObjects m ->
            regPkgs st !! compoundKey (firstField c') (firstField o') = None) ->
  regPkgs st !! firstField c = None ->
  p_ (commandLoop (msgCommands m) (msgObjects m) st zeroVars).2 = None.
Proof.
  intros Hcs Hmiss Hnone.
  destruct (commandLoop_miss (msgCommands m) (msgObjects m) st zeroVars Hmiss)
    as (v' & Hrun & _ & Hp & _).
  rewrite Hrun. simpl. now rewrite (Hp cs c Hcs).
Qed.

(** C1, the code at an utterance where the sentence does not hold: for the
    command "find" and the object "get", with the keys "get_forecast" and
    "get" in the registry, no compound key matches and the bare object "get"
    is a key, so it is recorded as the short route.  The bare lookup of the command
    then puts [nil] into [p]: [getPkg] asks for the last response, finds
    none, and returns the route "get" with no package and
    [ErrMissingPackage]. *)
Theorem getPkg_object_fallback_dropped :
  let m := utterance (Some alice) ["find"] ["get"] in
  regPkgs weatherState !! compoundKey "find" "get" = None ∧
  regPkgs weatherState !! "get"
    = Some {| P := weather; RPCClient := someClient |} ∧
  shortRoute_ (objectLoop "find" ["get"] weatherState zeroVars).1.2 = "get" ∧
  getPkg quietWorld m weatherState =
    (logged [Println (LogSearching "find_get"); Println LogPNil; Fetched m;
             Println LogNoLastPackage] weatherState,
     m,
     (None, "get", false, Some ErrMissingPackage)).
Proof. vm_compute. repeat split. Qed.

(** The same utterance when the store holds a last response: its route
    replaces the recorded one. *)
Example getPkg_object_fallback_overridden :
  (getPkg (worldWithLast "get_forecast")
     (utterance (Some alice) ["find"] ["get"]) weatherState).2 =
  (Some {| P := weather; RPCClient := someClient |},
   "get_forecast", false, None).
Proof. vm_compute. reflexivity. Qed.

(** C3, the code at an utterance where the sentence does not hold: the
    command "hello" matches nothing, the route "get_forecast" comes from the
    last response and is a key; [getPkg] returns it with the flag at [false], and
    [callPkg], called with [ctxAdded = false] for an utterance with one
    command, calls "Weather.Run". *)
Theorem callPkg_last_route_runs :
  let m := utterance (Some alice) ["hello"] [] in
  let w := worldWithLast "get_forecast" in
  p_ (commandLoop (msgCommands m) (msgObjects m) weatherState zeroVars).2 = None ∧
  (getPkg w m weatherState).2 =
    (Some {| P := weather; RPCClient := someClient |},
     "get_forecast", false, None) ∧
  callPkg w m false weatherState =
    (logged [Println LogPNil; Fetched m; Println (LogSending "weather");
             Println (LogCalling (setRoute "get_forecast" m));
             Called someClient "Weather.Run" (setRoute "get_forecast" m)]
       weatherState,
     setRoute "get_forecast" m,
     Returns (noReply, "weather", "get_forecast", None)).
Proof. vm_compute. repeat split. Qed.

(** The flag of [getPkg] is set on one path only, and that path returns an
    error: the last response names a route that is not a key. *)
Lemma getPkg_flag w m st :
  (getPkg w m st).2.1.2 = true ->
  (getPkg w m st).2.2 = Some ErrMissingPackage ∧ (getPkg w m st).2.1.1.1 = None.
Proof.
  unfold getPkg. destruct (MsgUser m) as [u|].
  - destruct (commandLoop _ _ st zeroVars) as [st' v].
    destruct (p_ v) as [e|]; [discriminate|].
    unfold GetLastResponse.
    destruct (QueryLastResponse w m) as [r [err|]]; [discriminate|].
    destruct r as [last|]; simpl; [|discriminate].
    destruct (regPkgs st' !! RespRoute last) as [e|] eqn:E; [discriminate|].
    now split.
  - destruct (regPkgs st !! "onboard"); discriminate.
Qed.



(** ** The shape of the keys *)

Lemma RegisterPackage_lookup w p st cl k :
  Dial w "tcp" (listenAddr p) = inr cl ->
  regPkgs (RegisterPackage w p st).1 !! k =
  if decide (k ∈ triggerKeys p) then Some {| P := p; RPCClient := cl |}
  else regPkgs st !! k.
Proof.
  intros H. rewrite (RegisterPackage_reachable w p st cl H). cbn [fst].
  rewrite commands_lookup. reflexivity.
Qed.

(** A registration changes the registry at keys of its trigger only. *)
Lemma RegisterPackage_changes w p st k :
  regPkgs (RegisterPackage w p st).1 !! k ≠ regPkgs st !! k ->
  k ∈ triggerKeys p ∧
  ∃ cl, regPkgs (RegisterPackage w p st).1 !! k
        = Some {| P := p; RPCClient := cl |}.
Proof.
  destruct (Dial w "tcp" (listenAddr p)) as [err|cl] eqn:E.
  - rewrite (RegisterPackage_unreachable w p st err E). simpl. contradiction.
  - rewrite (RegisterPackage_lookup w p st cl k E).
    destruct (decide (k ∈ triggerKeys p)); [eauto | contradiction].
Qed.

(** Every key of a reachable registry is a key of the trigger of the
    descriptor stored under it. *)
Lemma reachable_keys st :
  Reachable st -> ∀ k e, regPkgs st !! k = Some e -> k ∈ triggerKeys (P e).
Proof.
  induction 1 as [|w p st Hst IH|w m ctxAdded st Hst IH]; intros k e Hk.
  - simpl in Hk. now rewrite lookup_empty in Hk.
  - destruct (Dial w "tcp" (listenAddr p)) as [err|cl] eqn:E.
    + rewrite (RegisterPackage_unreachable w p st err E) in Hk. now apply IH.
    + rewrite (RegisterPackage_lookup w p st cl k E) in Hk.
      destruct (decide (k ∈ triggerKeys p)) as [Hin|Hout]; [|now apply IH].
      now injection Hk as <-.
  - rewrite callPkg_regPkgs in Hk. now apply IH.
Qed.

(** So every key of a reachable registry is in lower case. *)
Lemma reachable_keys_lower st k :
  Reachable st -> is_Some (regPkgs st !! k) -> ToLower k = k.
Proof.
  intros Hst [e He]. apply (reachable_keys st Hst) in He.
  apply triggerKeys_shape in He as [(c & o & _ & _ & ->)|(c & _ & ->)];
    apply ToLower_idemp.
Qed.

(** Where the short route after the inner loop comes from. *)
Lemma objectLoop_shortRoute c os st v :
  let v' := (objectLoop c os st v).1.2 in
  shortRoute_ v' = shortRoute_ v ∨ shortRoute_ v' = EmptyString ∨
  ∃ o, o ∈ os ∧ shortRoute_ v' = firstField o ∧
       is_Some (regPkgs st !! firstField o).
Proof.
  revert st v. induction os as [|o os IH]; intros st v; [now left|].
  cbn [objectLoop]. destruct (regPkgs st !! ToLower _); [right; now left|].
  set (st1 := println _ st).
  set (v1 := {| p_ := _; route_ := _; shortRoute_ := _ |}).
  destruct (IH st1 v1) as [Hsame|[Hempty|(o' & Ho' & Hshort & Hkey)]].
  - cbn zeta in Hsame. rewrite Hsame. subst v1 st1. simpl.
    destruct (regPkgs st !! firstField o) eqn:E; [|now left].
    right; right. exists o. split; [now left|]. rewrite E. eauto.
  - right; now left.
  - right; right. exists o'. split; [now right|]. now split.
Qed.

(** C9, as the code has it: a registration changes the registry only at
    compound keys and lower-cased commands of its own trigger; hence every
    key of a reachable registry is a compound key or a lower-cased command of
    the descriptor stored under it; hence an object that the inner loop of
    [getPkg] records as the short route is such a key of a registered
    descriptor. *)
Theorem registry_key_shape st :
  Reachable st ->
  (∀ w p k, regPkgs (RegisterPackage w p st).1 !! k ≠ regPkgs st !! k ->
            compoundOf p k ∨ bareCommandOf p k) ∧
  (∀ k e, regPkgs st !! k = Some e ->
          compoundOf (P e) k ∨ bareCommandOf (P e) k) ∧
  (∀ c os v,
      let v' := (objectLoop c os st v).1.2 in
      shortRoute_ v' = shortRoute_ v ∨ shortRoute_ v' = EmptyString ∨
      ∃ o e, o ∈ os ∧ shortRoute_ v' = firstField o ∧
             regPkgs st !! firstField o = Some e ∧
             (compoundOf (P e) (firstField o) ∨
              bareCommandOf (P e) (firstField o))).
Proof.
  intros Hst. split; [|split].
  - intros w p k Hne. apply triggerKeys_shape.
    now apply RegisterPackage_changes in Hne as [Hin _].
  - intros k e Hk. apply triggerKeys_shape. now apply reachable_keys with st.
  - intros c os v.
    destruct (objectLoop_shortRoute c os st v)
      as [Hsame|[Hempty|(o & Ho & Hshort & [e He])]];
      [now left | right; now left |].
    right; right. exists o, e. repeat split; auto.
    apply triggerKeys_shape. now apply reachable_keys with st.
Qed.

Lemma weatherState_reachable : Reachable weatherState.
Proof. apply ReachRegister, ReachInit. Qed.

Lemma registry_key_shape_witness :
  compoundOf weather "get_forecast" ∨ bareCommandOf weather "get_forecast".
Proof.
  destruct (registry_key_shape weatherState
              (ReachRegister quietWorld weather initState ReachInit))
    as (_ & Hshape & _).
  apply (Hshape "get_forecast" {| P := weather; RPCClient := someClient |}).
  vm_compute. reflexivity.
Defined.

(** C9, the sentence as written fails: the object token "get_forecast" is
    the compound key of [weather]; the bare lookup of the inner loop finds
    it and records it as the short route, and it is neither a command of a
    registered skill nor "onboard". *)
Lemma object_token_matches_compound_key :
  ¬ (∀ st o e,
        Reachable st -> regPkgs st !! firstField o = Some e ->
        (∃ k e' c, regPkgs st !! k = Some e' ∧
                   c ∈ Commands (Trigger (P e')) ∧ firstField o = ToLower c)
        ∨ firstField o = "onboard").
Proof.
  intros H.
  destruct (H weatherState "get_forecast"
              {| P := weather; RPCClient := someClient |}
              weatherState_reachable)
    as [(k & e' & c & Hk & Hc & Heq)|Heq].
  - vm_compute. reflexivity.
  - unfold weatherState in Hk.
    rewrite (RegisterPackage_lookup quietWorld weather initState someClient k
               eq_refl) in Hk.
    destruct (decide (k ∈ triggerKeys weather)).
    + injection Hk as <-. simpl in Hc.
      apply list_elem_of_singleton in Hc as ->. vm_compute in Heq.
      discriminate Heq.
    + simpl in Hk. now rewrite lookup_empty in Hk.
  - vm_compute in Heq. discriminate Heq.
Qed.

Example object_token_matches_compound_key_run :
  shortRoute_ (objectLoop "find" ["get_forecast"] weatherState zeroVars).1.2
  = "get_forecast".
Proof. vm_compute. reflexivity. Qed.

(** ** Letter case *)

Lemma list_last_cases {A} (l : list A) : l = [] ∨ ∃ l' a, l = l' ++ [a].
Proof.
  induction l as [|a l IH] using rev_ind; [now left|]. right. eauto.
Qed.

(** C10: the compound lookup of [getPkg] lower-cases the key, so tokens
    that agree with registered trigger tokens up to letter case find the
    entry registered for them.  The bare lookups take the token as it is, cut
    at its quote: in a reachable registry a token that differs from a
    lower-case token only in letter case is no key, and an utterance all of
    whose tokens are of that kind, and none of whose pairs is a compound key,
    leaves the loops with no package and no short route. *)
Theorem getPkg_letter_case st :
  Reachable st ->
  (∀ w u c o c' o' e,
      regPkgs st !! compoundKey c o = Some e ->
      ToLower (firstField c') = ToLower c ->
      ToLower (firstField o') = ToLower o ->
      getPkg w (utterance (Some u) [c'] [o']) st =
        (logged [Println (LogSearching (compoundKey c o))] st,
         utterance (Some u) [c'] [o'],
         (Some e, compoundKey c o, false, None))) ∧
  (∀ t k, ToLower (firstField t) = k -> firstField t ≠ k ->
          regPkgs st !! firstField t = None) ∧
  (∀ cs os,
      (∀ t, t ∈ cs ++ os -> firstField t ≠ ToLower (firstField t)) ->
      (∀ c o, c ∈ cs -> o ∈ os ->
              regPkgs st !! compoundKey (firstField c) (firstField o) = None) ->
      p_ (commandLoop cs os st zeroVars).2 = None ∧
      shortRoute_ (commandLoop cs os st zeroVars).2 = EmptyString).
Proof.
  intros Hst.
  assert (∀ t, firstField t ≠ ToLower (firstField t) ->
               regPkgs st !! firstField t = None) as Hbare.
  { intros t Hne. destruct (regPkgs st !! firstField t) as [e|] eqn:E;
      [|reflexivity].
    exfalso. apply Hne. symmetry.
    apply (reachable_keys_lower st _ Hst). rewrite E. eauto. }
  split; [|split].
  - intros w u c o c' o' e Hkey Hc Ho.
    unfold getPkg. cbn [MsgUser utterance msgCommands msgObjects MsgInput
                        StructuredInput_ Commands Objects commandLoop objectLoop].
    fold (compoundKey (firstField c') (firstField o')).
    rewrite (compoundKey_case c o _ _ Hc Ho), Hkey. reflexivity.
  - intros t k Hk Hne. apply Hbare. congruence.
  - intros cs os Hcase Hmiss.
    destruct (commandLoop_miss cs os st zeroVars Hmiss)
      as (v' & Hrun & Hnil & Hp & _ & Hshort).
    rewrite Hrun. cbn [snd]. split.
    + destruct (list_last_cases cs) as [->|(cs' & c & ->)].
      * now rewrite (Hnil eq_refl).
      * rewrite (Hp cs' c eq_refl). apply Hbare, Hcase.
        rewrite !elem_of_app. left; right. now left.
    + rewrite Hshort; [reflexivity| |].
      * intros o Ho. apply Hbare, Hcase, elem_of_app. now right.
      * intros c Hc. apply Hbare, Hcase, elem_of_app. now left.
Qed.

Lemma getPkg_letter_case_witness :
  getPkg quietWorld (utterance (Some alice) ["GET"] ["Forecast'now"])
    weatherState =
    (logged [Println (LogSearching "get_forecast")] weatherState,
     utterance (Some alice) ["GET"] ["Forecast'now"],
     (Some {| P := weather; RPCClient := someClient |},
      "get_forecast", false, None)) ∧
  regPkgs weatherState !! "GET" = None ∧
  regPkgs weatherState !! "Forecast" = None.
Proof.
  destruct (getPkg_letter_case weatherState
              (ReachRegister quietWorld weather initState ReachInit))
    as (Hexact & Hbare & _).
  split; [|split].
  - apply (Hexact quietWorld alice "get" "forecast" "GET" "Forecast'now"
             {| P := weather; RPCClient := someClient |}).
    + vm_compute. reflexivity.
    + reflexivity.
    + reflexivity.
  - apply (Hbare "GET" "get"); [reflexivity | discriminate].
  - apply (Hbare "Forecast'now" "forecast"); [reflexivity | discriminate].
Defined.

(** The bare key "get" is taken, the utterance says "GET": no fallback. *)
Example getPkg_upper_case_command :
  regPkgs weatherState !! "get" = Some {| P := weather; RPCClient := someClient |} ∧
  (getPkg quietWorld (utterance (Some alice) ["GET"] ["umbrella"]) weatherState).2
  = (None, "get_umbrella", false, Some ErrMissingPackage) ∧
  (getPkg quietWorld (utterance (Some alice) ["get"] ["umbrella"]) weatherState).2
  = (Some {| P := weather; RPCClient := someClient |}, "get", false, None).
Proof. vm_compute. repeat split. Qed.

(** * Further properties of the dispatch core *)

(** ** What leaves the process *)

Lemma rpcCalls_app tr1 tr2 : rpcCalls (tr1 ++ tr2) = rpcCalls tr1 ++ rpcCalls tr2.
Proof. apply flat_map_app. Qed.

Lemma objectLoop_rpcCalls c os st v :
  rpcCalls (trace (objectLoop c os st v).1.1) = rpcCalls (trace st).
Proof.
  revert st v. induction os as [|o os IH]; intros st v; [reflexivity|].
  cbn [objectLoop].
  destruct (regPkgs st !! _).
  - simpl. rewrite rpcCalls_app. simpl. now rewrite app_nil_r.
  - rewrite IH. simpl. rewrite rpcCalls_app. simpl. now rewrite app_nil_r.
Qed.

Lemma commandLoop_rpcCalls cs os st v :
  rpcCalls (trace (commandLoop cs os st v).1) = rpcCalls (trace st).
Proof.
  revert st v. induction cs as [|c cs IH]; intros st v; [reflexivity|].
  cbn [commandLoop].
  pose proof (objectLoop_rpcCalls (firstField c) os st v) as Hobj.
  destruct (objectLoop (firstField c) os st v) as [[st1 v1] broke].
  simpl in Hobj. destruct broke; [exact Hobj|]. now rewrite IH.
Qed.

(** The resolver makes no remote procedure call. *)
Lemma getPkg_rpcCalls w m st :
  rpcCalls (trace (getPkg w m st).1.1) = rpcCalls (trace st).
Proof.
  unfold getPkg. destruct (MsgUser m) as [u|].
  - pose proof (commandLoop_rpcCalls (msgCommands m) (msgObjects m) st zeroVars)
      as Hloop.
    destruct (commandLoop _ _ st zeroVars) as [st' v]. simpl in Hloop.
    assert (∀ evs, rpcCalls evs = [] ->
                   rpcCalls (trace st' ++ evs) = rpcCalls (trace st)) as Hfar
      by (intros evs Hevs; now rewrite rpcCalls_app, Hevs, app_nil_r).
    destruct (p_ v) as [e|]; [exact Hloop|].
    unfold GetLastResponse.
    destruct (QueryLastResponse w m) as [r [err|]].
    + simpl. rewrite <- app_assoc. now apply Hfar.
    + destruct r as [last|]; simpl.
      * destruct (regPkgs _ !! RespRoute last); simpl;
          rewrite <- app_assoc; now apply Hfar.
      * rewrite <- !app_assoc. now apply Hfar.
  - destruct (regPkgs st !! "onboard"); [reflexivity|].
    simpl. rewrite rpcCalls_app. simpl. now rewrite app_nil_r.
Qed.

(** When [getPkg] returns an error it returns no package. *)
Lemma getPkg_error_no_package w m st st1 m1 pw route lastRoute err :
  getPkg w m st = (st1, m1, (pw, route, lastRoute, Some err)) -> pw = None.
Proof.
  unfold getPkg. destruct (MsgUser m) as [u|].
  - destruct (commandLoop _ _ st zeroVars) as [st' v].
    destruct (p_ v) as [e|]; [discriminate|].
    unfold GetLastResponse.
    destruct (QueryLastResponse w m) as [r [err'|]]; [now intros [= <- <- <- <- <-]|].
    destruct r as [last|]; simpl; [|now intros [= <- <- <- <- <-]].
    destruct (regPkgs st' !! RespRoute last) as [e|] eqn:E; [discriminate|].
    now intros [= <- <- <- <- <-].
  - destruct (regPkgs st !! "onboard") as [e|]; [discriminate|].
    now intros [= <- <- <- <- <-].
Qed.


(** X2: when the resolution fails, [callPkg] hands the error on together
    with the zero reply, the empty package name (no package is known on any
    failing path) and the route [getPkg] returned; state and message are
    the ones [getPkg] left, so nothing more is printed and nothing is sent. *)
Theorem callPkg_resolution_error w m ctxAdded st st1 m1 pw route lastRoute err :
  getPkg w m st = (st1, m1, (pw, route, lastRoute, Some err)) ->
  callPkg w m ctxAdded st =
    (st1, m1, Returns (emptyResponseMsg, EmptyString, route, Some err)) ∧
  rpcCalls (trace st1) = rpcCalls (trace st).
Proof.
  intros H. pose proof (getPkg_error_no_package _ _ _ _ _ _ _ _ _ H) as ->.
  split.
  - unfold callPkg. now rewrite H.
  - pose proof (getPkg_rpcCalls w m st) as Hcalls. now rewrite H in Hcalls.
Qed.

Lemma callPkg_resolution_error_witness :
  callPkg quietWorld (utterance (Some alice) ["find"] ["umbrella"]) true
    weatherState =
  (logged [Println (LogSearching "find_umbrella"); Println LogPNil;
           Fetched (utterance (Some alice) ["find"] ["umbrella"]);
           Println LogNoLastPackage] weatherState,
   utterance (Some alice) ["find"] ["umbrella"],
   Returns (emptyResponseMsg, EmptyString, "find_umbrella",
            Some ErrMissingPackage)).
Proof.
  destruct (callPkg_resolution_error quietWorld
              (utterance (Some alice) ["find"] ["umbrella"]) true weatherState
              (logged [Println (LogSearching "find_umbrella"); Println LogPNil;
                       Fetched (utterance (Some alice) ["find"] ["umbrella"]);
                       Println LogNoLastPackage] weatherState)
              (utterance (Some alice) ["find"] ["umbrella"])
              None "find_umbrella" false ErrMissingPackage eq_refl)
    as [Hcall _].
  exact Hcall.
Defined.


(** ** Keys stay *)

(** X4: no operation takes a key out of the registry: a registration keeps
    every key that was there (with its old entry or the new one), and a
    dispatch leaves every lookup as it was. *)
Theorem registry_never_shrinks w p m ctxAdded st k :
  is_Some (regPkgs st !! k) ->
  is_Some (regPkgs (RegisterPackage w p st).1 !! k) ∧
  regPkgs (callPkg w m ctxAdded st).1.1 !! k = regPkgs st !! k.
Proof.
  intros Hk. split; [|now rewrite callPkg_regPkgs].
  destruct (Dial w "tcp" (listenAddr p)) as [err|cl] eqn:E.
  - now rewrite (RegisterPackage_unreachable w p st err E).
  - rewrite (RegisterPackage_lookup w p st cl k E).
    destruct (decide (k ∈ triggerKeys p)); [eauto | exact Hk].
Qed.

Lemma registry_never_shrinks_witness :
  is_Some (regPkgs (RegisterPackage quietWorld getter weatherState).1
             !! "get_forecast") ∧
  regPkgs (callPkg quietWorld (utterance (Some alice) ["get"] ["forecast"])
             false weatherState).1.1 !! "get_forecast"
  = regPkgs weatherState !! "get_forecast".
Proof.
  apply (registry_never_shrinks quietWorld getter
           (utterance (Some alice) ["get"] ["forecast"]) false weatherState
           "get_forecast").
  eexists. vm_compute. reflexivity.
Defined.

(** ** Registration, then resolution *)

(** X5: a skill that registered with success is found: an utterance with a
    user whose first command and first object agree with a command and an
    object of the trigger, up to letter case and up to what follows a quote,
    resolves to the skill's entry under their compound key, whatever the
    other tokens and whatever the registry held before. *)
Theorem register_then_resolve w w' p st cl m u c o c' o' cs os :
  Dial w "tcp" (listenAddr p) = inr cl ->
  c ∈ Commands (Trigger p) -> o ∈ Objects (Trigger p) ->
  MsgUser m = Some u ->
  msgCommands m = c' :: cs -> msgObjects m = o' :: os ->
  ToLower (firstField c') = ToLower c ->
  ToLower (firstField o') = ToLower o ->
  (getPkg w' m (RegisterPackage w p st).1).2 =
  (Some {| P := p; RPCClient := cl |}, compoundKey c o, false, None).
Proof.
  intros Hdial Hc Ho Hu Hcs Hos Hc' Ho'.
  assert (regPkgs (RegisterPackage w p st).1
            !! compoundKey (firstField c') (firstField o')
          = Some {| P := p; RPCClient := cl |}) as Hkey.
  { rewrite (compoundKey_case c o _ _ Hc' Ho').
    rewrite (RegisterPackage_lookup w p st cl _ Hdial).
    rewrite decide_True; [reflexivity|].
    apply triggerKeys_shape. left. now exists c, o. }
  unfold getPkg. rewrite Hu, Hcs, Hos.
  pose proof (commandLoop_hit [] c' cs [] o' os (RegisterPackage w p st).1
                zeroVars {| P := p; RPCClient := cl |}) as Hhit.
  cbn [app] in Hhit. rewrite Hhit.
  - cbn [p_ shortRoute_ route_ String.length Nat.ltb Nat.leb snd].
    now rewrite (compoundKey_case c o _ _ Hc' Ho').
  - intros ? ? []%elem_of_nil.
  - intros ? []%elem_of_nil.
  - exact Hkey.
Qed.

Lemma register_then_resolve_witness :
  (getPkg quietWorld
     (utterance (Some alice) ["READ'aloud"; "get"] ["Paper"; "forecast"])
     (RegisterPackage quietWorld news weatherState).1).2 =
  (Some {| P := news; RPCClient := someClient |}, "read_paper", false, None).
Proof.
  apply (register_then_resolve quietWorld quietWorld news weatherState
           someClient _ alice "Read" "paper" "READ'aloud" "Paper"
           ["get"] ["forecast"]).
  - reflexivity.
  - apply list_elem_of_In. simpl. tauto.
  - apply list_elem_of_In. simpl. tauto.
  - reflexivity.
  - reflexivity.
  - reflexivity.
  - reflexivity.
  - reflexivity.
Defined.

(** X6: the bare command of a registered skill resolves an utterance
    without objects whose last command is that command in lower case; an
    upper-case spelling in the trigger is reached by the lower-case token
    only. *)
Theorem register_then_resolve_command w w' p st cl m u c c' cs :
  Dial w "tcp" (listenAddr p) = inr cl ->
  c ∈ Commands (Trigger p) -> ToLower c ≠ EmptyString ->
  MsgUser m = Some u ->
  msgCommands m = cs ++ [c'] -> msgObjects m = [] ->
  firstField c' = ToLower c ->
  (getPkg w' m (RegisterPackage w p st).1).2 =
  (Some {| P := p; RPCClient := cl |}, ToLower c, false, None).
Proof.
  intros Hdial Hc Hne Hu Hcs Hos Hc'.
  assert (regPkgs (RegisterPackage w p st).1 !! firstField c'
          = Some {| P := p; RPCClient := cl |}) as Hkey.
  { rewrite Hc', (RegisterPackage_lookup w p st cl _ Hdial).
    rewrite decide_True; [reflexivity|].
    apply triggerKeys_shape. right. now exists c. }
  unfold getPkg. rewrite Hu.
  destruct (commandLoop_miss (msgCommands m) (msgObjects m)
              (RegisterPackage w p st).1 zeroVars)
    as (v' & Hrun & _ & Hp & Hshort & _).
  { rewrite Hos. intros ? ? _ []%elem_of_nil. }
  rewrite Hrun, (Hp cs c' Hcs), Hkey, (Hshort cs c' _ Hcs Hkey), Hc'.
  destruct (ToLower c); [contradiction|]. reflexivity.
Qed.

Lemma register_then_resolve_command_witness :
  (getPkg quietWorld (utterance (Some alice) ["find"; "read'it"] [])
     (RegisterPackage quietWorld news weatherState).1).2 =
  (Some {| P := news; RPCClient := someClient |}, "read", false, None).
Proof.
  apply (register_then_resolve_command quietWorld quietWorld news weatherState
           someClient _ alice "Read" "read'it" ["find"]).
  - reflexivity.
  - apply list_elem_of_In. simpl. tauto.
  - discriminate.
  - reflexivity.
  - reflexivity.
  - reflexivity.
  - reflexivity.
Defined.

Lemma getPkg_last_command_fallback_witness :
  getPkg quietWorld (utterance (Some alice) ["find"; "get'it"] ["umbrella"])
    weatherState =
  (logged [Println (LogSearching "find_umbrella");
           Println (LogSearching "get_umbrella")] weatherState,
   utterance (Some alice) ["find"; "get'it"] ["umbrella"],
   (Some {| P := weather; RPCClient := someClient |}, "get", false, None)).
Proof.
  apply (getPkg_last_command_fallback quietWorld
           (utterance (Some alice) ["find"; "get'it"] ["umbrella"])
           alice weatherState ["find"] "get'it"
           {| P := weather; RPCClient := someClient |}).
  - reflexivity.
  - reflexivity.
  - intros c' o' Hc Ho. apply list_elem_of_In in Hc, Ho. simpl in Hc, Ho.
    destruct Ho as [<-|[]]. destruct Hc as [<-|[<-|[]]];
      vm_compute; reflexivity.
  - vm_compute. reflexivity.
  - discriminate.
Defined.

(** ** The last response *)

(** What [getPkg] does once the loops have left [p] at [nil]. *)
Lemma getPkg_unmatched w m u st st' v :
  MsgUser m = Some u ->
  commandLoop (msgCommands m) (msgObjects m) st zeroVars = (st', v) ->
  p_ v = None ->
  getPkg w m st =
  match QueryLastResponse w m with
  | (r, Some err) =>
      (logged [Println LogPNil; Fetched m] st', setLastResponse r m,
       (None, routeOf v, false, Some err))
  | (None, None) =>
      (logged [Println LogPNil; Fetched m; Println LogNoLastPackage] st',
       setLastResponse None m,
       (None, routeOf v, false, Some ErrMissingPackage))
  | (Some last, None) =>
      match regPkgs st !! RespRoute last with
      | None =>
          (logged [Println LogPNil; Fetched m] st',
           setLastResponse (Some last) m,
           (None, RespRoute last, true, Some ErrMissingPackage))
      | Some e =>
          (logged [Println LogPNil; Fetched m] st',
           setLastResponse None m,
           (Some e, RespRoute last, false, None))
      end
  end.
Proof.
  intros Hu Hloop Hp. unfold getPkg. rewrite Hu, Hloop, Hp.
  pose proof (commandLoop_regPkgs (msgCommands m) (msgObjects m) st zeroVars)
    as Hreg. rewrite Hloop in Hreg. simpl in Hreg.
  unfold GetLastResponse, println, emit, routeOf, logged.
  destruct (QueryLastResponse w m) as [[last|] [err|]]; simpl;
    rewrite ?Hreg; try destruct (regPkgs st !! RespRoute last);
    rewrite <- ?app_assoc; reflexivity.
Qed.

(** X8: the three ways the last response fails, for an utterance whose
    tokens left no package.  An error of the lookup is handed on; no last
    response gives [ErrMissingPackage]; a last response whose route is not a
    key gives [ErrMissingPackage] too, with the flag set and with that last
    response still on the message: it is cleared on success only.  None of
    the three returns a package. *)
Theorem getPkg_last_route_failures w m u st st' v :
  MsgUser m = Some u ->
  commandLoop (msgCommands m) (msgObjects m) st zeroVars = (st', v) ->
  p_ v = None ->
  (∀ r err, QueryLastResponse w m = (r, Some err) ->
     getPkg w m st =
       (logged [Println LogPNil; Fetched m] st', setLastResponse r m,
        (None, routeOf v, false, Some err))) ∧
  (QueryLastResponse w m = (None, None) ->
     getPkg w m st =
       (logged [Println LogPNil; Fetched m; Println LogNoLastPackage] st',
        setLastResponse None m,
        (None, routeOf v, false, Some ErrMissingPackage))) ∧
  (∀ last, QueryLastResponse w m = (Some last, None) ->
     regPkgs st !! RespRoute last = None ->
     getPkg w m st =
       (logged [Println LogPNil; Fetched m] st',
        setLastResponse (Some last) m,
        (None, RespRoute last, true, Some ErrMissingPackage))).
Proof.
  intros Hu Hloop Hp.
  pose proof (getPkg_unmatched w m u st st' v Hu Hloop Hp) as H.
  split; [|split].
  - intros r err Hq. rewrite Hq in H. now destruct r.
  - intros Hq. now rewrite Hq in H.
  - intros last Hq Hnone. now rewrite Hq, Hnone in H.
Qed.

Lemma getPkg_last_route_failures_witness :
  getPkg (worldWithLast "read_paper")
    (utterance (Some alice) ["find"] ["umbrella"]) weatherState =
  (logged [Println LogPNil;
           Fetched (utterance (Some alice) ["find"] ["umbrella"])]
     (logged [Println (LogSearching "find_umbrella")] weatherState),
   setLastResponse (Some {| RespRoute := "read_paper" |})
     (utterance (Some alice) ["find"] ["umbrella"]),
   (None, "read_paper", true, Some ErrMissingPackage)).
Proof.
  destruct (getPkg_last_route_failures (worldWithLast "read_paper")
              (utterance (Some alice) ["find"] ["umbrella"]) alice weatherState
              (logged [Println (LogSearching "find_umbrella")] weatherState)
              {| p_ := None; route_ := "find_umbrella";
                 shortRoute_ := EmptyString |}
              eq_refl eq_refl eq_refl) as (_ & _ & Hunknown).
  apply (Hunknown {| RespRoute := "read_paper" |}).
  - reflexivity.
  - vm_compute. reflexivity.
Defined.

(** X9: an utterance without commands is resolved by the last response
    alone: its objects are not looked up, not even when one of them is a
    key.  It resolves exactly when the lookup returns, without error, a last
    response whose route is a key, and then to the entry of that route. *)
Theorem getPkg_no_commands w m u st :
  MsgUser m = Some u -> msgCommands m = [] ->
  ((getPkg w m st).2.2 = None <->
   ∃ last, QueryLastResponse w m = (Some last, None) ∧
           is_Some (regPkgs st !! RespRoute last)) ∧
  (∀ last e, QueryLastResponse w m = (Some last, None) ->
             regPkgs st !! RespRoute last = Some e ->
             (getPkg w m st).2 = (Some e, RespRoute last, false, None)) ∧
  trace (getPkg w m st).1.1 =
    trace st ++ Println LogPNil :: Fetched m ::
      match QueryLastResponse w m with
      | (None, None) => [Println LogNoLastPackage]
      | _ => []
      end.
Proof.
  intros Hu Hcs.
  assert (commandLoop (msgCommands m) (msgObjects m) st zeroVars
          = (st, zeroVars)) as Hloop by now rewrite Hcs.
  rewrite (getPkg_unmatched w m u st st zeroVars Hu Hloop eq_refl).
  destruct (QueryLastResponse w m) as [[last|] [err|]]; simpl.
  - repeat split; try discriminate. intros (l & [=] & _).
  - destruct (regPkgs st !! RespRoute last) as [e|] eqn:E; simpl.
    + repeat split; eauto.
      intros l e' [= <-]. rewrite E. now intros [= <-].
    + repeat split; try discriminate.
      * intros (l & [= <-] & [e He]). congruence.
      * intros l e' [= <-]. congruence.
  - repeat split; try discriminate. intros (l & [=] & _).
  - repeat split; try discriminate. intros (l & [=] & _).
Qed.

Lemma getPkg_no_commands_witness :
  (getPkg quietWorld (utterance (Some alice) [] ["get"]) weatherState).2.2
    ≠ None ∧
  (getPkg (worldWithLast "get") (utterance (Some alice) [] ["umbrella"])
     weatherState).2 =
  (Some {| P := weather; RPCClient := someClient |}, "get", false, None).
Proof.
  split.
  - destruct (getPkg_no_commands quietWorld
                (utterance (Some alice) [] ["get"]) alice weatherState
                eq_refl eq_refl) as ([Hres _] & _).
    intros Hnone. destruct (Hres Hnone) as (last & Hq & _). discriminate Hq.
  - destruct (getPkg_no_commands (worldWithLast "get")
                (utterance (Some alice) [] ["umbrella"]) alice weatherState
                eq_refl eq_refl) as (_ & Hroute & _).
    apply (Hroute {| RespRoute := "get" |}); vm_compute; reflexivity.
Defined.

(** ** Registrations composed *)

(** X10: a skill that registers again over the same connection leaves the
    registry as its first registration left it, and the second registration
    prints the warning for every compound key of its trigger. *)
Theorem RegisterPackage_again w p st cl :
  Dial w "tcp" (listenAddr p) = inr cl ->
  let st1 := (RegisterPackage w p st).1 in
  let st2 := (RegisterPackage w p st1).1 in
  regPkgs st2 = regPkgs st1 ∧
  ∃ new, trace st2 = trace st1 ++ new ∧
         ∀ c o, c ∈ Commands (Trigger p) -> o ∈ Objects (Trigger p) ->
                Println (LogWarnDuplicate (Name (Config p)) (compoundKey c o))
                  ∈ new.
Proof.
  intros Hdial st1 st2. split.
  - apply map_eq. intros k. subst st2.
    rewrite (RegisterPackage_lookup w p st1 cl k Hdial). subst st1.
    rewrite (RegisterPackage_lookup w p st cl k Hdial).
    now destruct (decide (k ∈ triggerKeys p)).
  - subst st2. rewrite (RegisterPackage_reachable w p st1 cl Hdial). cbn [fst].
    set (st0 := emit _ (println _ st1)).
    destruct (commands_extends p cl st0) as [(new & Hnew & _) _].
    exists ([Println (LogRegistering (wrapInt (Port (Config p) + 1)));
             Dialed "tcp" (listenAddr p)] ++ new).
    split.
    + rewrite Hnew. subst st0. simpl. now rewrite <- !app_assoc.
    + intros c o Hc Ho. apply elem_of_app. right.
      destruct (commands_warn p cl st0 c o Hc Ho) as (new' & Hnew' & Hin).
      * subst st0 st1. cbn [regPkgs emit println].
        rewrite (RegisterPackage_lookup w p st cl _ Hdial).
        rewrite decide_True; [eauto|].
        apply triggerKeys_shape. left. now exists c, o.
      * rewrite Hnew in Hnew'. apply app_inv_head in Hnew'. now subst new'.
Qed.

Lemma RegisterPackage_again_witness :
  regPkgs (RegisterPackage quietWorld news
             (RegisterPackage quietWorld news weatherState).1).1
  = regPkgs (RegisterPackage quietWorld news weatherState).1.
Proof.
  destruct (RegisterPackage_again quietWorld news weatherState someClient
              eq_refl) as [Hsame _].
  exact Hsame.
Defined.

(** X11: two skills whose triggers give no common key may register in
    either order: the registry is the same. *)
Theorem RegisterPackage_commute w p q st clp clq :
  Dial w "tcp" (listenAddr p) = inr clp ->
  Dial w "tcp" (listenAddr q) = inr clq ->
  (∀ k, k ∈ triggerKeys p -> k ∉ triggerKeys q) ->
  regPkgs (RegisterPackage w q (RegisterPackage w p st).1).1 =
  regPkgs (RegisterPackage w p (RegisterPackage w q st).1).1.
Proof.
  intros Hp Hq Hdisj. apply map_eq. intros k.
  rewrite (RegisterPackage_lookup w q _ clq k Hq).
  rewrite (RegisterPackage_lookup w p _ clp k Hp).
  rewrite (RegisterPackage_lookup w p _ clp k Hp).
  rewrite (RegisterPackage_lookup w q _ clq k Hq).
  destruct (decide (k ∈ triggerKeys q)) as [Hkq|Hkq];
    destruct (decide (k ∈ triggerKeys p)) as [Hkp|Hkp]; try reflexivity.
  now destruct (Hdisj k Hkp).
Qed.

Lemma RegisterPackage_commute_witness :
  regPkgs (RegisterPackage quietWorld news
             (RegisterPackage quietWorld weather initState).1).1 =
  regPkgs (RegisterPackage quietWorld weather
             (RegisterPackage quietWorld news initState).1).1.
Proof.
  apply (RegisterPackage_commute quietWorld weather news initState
           someClient someClient).
  - reflexivity.
  - reflexivity.
  - intros k Hk Hk'. apply list_elem_of_In in Hk, Hk'.
    vm_compute in Hk, Hk'.
    destruct Hk as [<-|[<-|[]]];
      repeat (destruct Hk' as [Hk'|Hk']; [discriminate Hk'|]); exact Hk'.
Defined.

(** When the triggers share a key the order shows: the later skill holds
    the key. *)
Example RegisterPackage_order_matters :
  regPkgs (RegisterPackage quietWorld getter weatherState).1 !! "get"
    = Some {| P := getter; RPCClient := someClient |} ∧
  regPkgs (RegisterPackage quietWorld weather
             (RegisterPackage quietWorld getter initState).1).1 !! "get"
    = Some {| P := weather; RPCClient := someClient |}.
Proof. vm_compute. split; reflexivity. Qed.

(** ** Tokens *)

(** X12: what [getPkg] keeps of a token is its longest prefix without a
    quote: the token is that prefix followed either by nothing or by a quote
    and the rest. *)
Theorem firstField_prefix t :
  quoteFree (firstField t) = true ∧
  ∃ rest, t = firstField t +:+ rest ∧
          (rest = EmptyString ∨ ∃ rest', rest = String "'" rest').
Proof.
  split; [apply firstField_is_quoteFree|].
  induction t as [|a t (rest & Ht & Hrest)].
  - exists EmptyString. split; [reflexivity | now left].
  - rewrite firstField_cons. destruct (Ascii.eqb a "'") eqn:E.
    + apply Ascii.eqb_eq in E as ->. exists (String "'" t).
      split; [reflexivity | right; eauto].
    + exists rest. split; [|exact Hrest].
      change (String a (firstField t) +:+ rest)
        with (String a (firstField t +:+ rest)).
      f_equal. exact Ht.
Qed.

(** ** Route and package agree *)

Lemma objectLoop_agree c os st v :
  (objectLoop c os st v).2 = true ->
  agree st (objectLoop c os st v).1.2.
Proof.
  revert st v. induction os as [|o os IH]; intros st v; [discriminate|].
  cbn [objectLoop]. destruct (regPkgs st !! ToLower _) as [e|] eqn:E.
  - intros _ e'. simpl. unfold routeOf. simpl. congruence.
  - intros Hb. apply (IH _ _ Hb).
Qed.

Lemma commandLoop_agree cs os st v :
  regPkgs st !! EmptyString = None ->
  agree st v -> agree st (commandLoop cs os st v).2.
Proof.
  intros Hempty. revert st v Hempty.
  induction cs as [|c cs IH]; intros st v Hempty Hv; [exact Hv|].
  cbn [commandLoop].
  pose proof (objectLoop_agree (firstField c) os st v) as Hobj.
  pose proof (objectLoop_regPkgs (firstField c) os st v) as Hreg.
  destruct (objectLoop (firstField c) os st v) as [[st1 v1] broke].
  simpl in Hobj, Hreg. destruct broke.
  - now apply Hobj.
  - assert (∀ v', agree st1 v' -> agree st v') as Hback
      by (intros v' Hv' e He; rewrite <- Hreg; now apply Hv').
    apply Hback, IH; [now rewrite Hreg|].
    intros e He. simpl in He. unfold routeOf. simpl. rewrite He.
    destruct (firstField c) eqn:Ec.
    + rewrite Hreg, Hempty in He. discriminate.
    + simpl. exact He.
Qed.

(** X13: when the empty string is not a key, a resolution without error
    returns a route that is a key of the registry, and the package returned
    is the entry under that key. *)
Theorem getPkg_route_is_key w m st st1 m1 e route lastRoute :
  regPkgs st !! EmptyString = None ->
  getPkg w m st = (st1, m1, (Some e, route, lastRoute, None)) ->
  regPkgs st !! route = Some e.
Proof.
  intros Hempty. unfold getPkg. destruct (MsgUser m) as [u|].
  - pose proof (commandLoop_agree (msgCommands m) (msgObjects m) st zeroVars
                  Hempty) as Hagree.
    pose proof (commandLoop_regPkgs (msgCommands m) (msgObjects m) st zeroVars)
      as Hreg.
    destruct (commandLoop _ _ st zeroVars) as [st' v]. simpl in Hagree, Hreg.
    destruct (p_ v) as [e0|] eqn:Hp.
    + intros [= <- <- <- <- <-]. apply Hagree; [discriminate | exact Hp].
    + unfold GetLastResponse.
      destruct (QueryLastResponse w m) as [r [err|]]; [discriminate|].
      destruct r as [last|]; simpl; [|discriminate].
      destruct (regPkgs st' !! RespRoute last) as [e'|] eqn:E; [|discriminate].
      intros [= <- <- <- <- <-]. now rewrite <- Hreg.
  - destruct (regPkgs st !! "onboard") as [e'|] eqn:E; [|discriminate].
    now intros [= <- <- <- <- <-].
Qed.

Lemma getPkg_route_is_key_witness :
  regPkgs weatherState !! "get"
  = Some {| P := weather; RPCClient := someClient |}.
Proof.
  apply (getPkg_route_is_key quietWorld
           (utterance (Some alice) ["find"; "get"] ["umbrella"]) weatherState
           (logged [Println (LogSearching "find_umbrella");
                    Println (LogSearching "get_umbrella")] weatherState)
           (utterance (Some alice) ["find"; "get"] ["umbrella"])
           _ "get" false).
  - vm_compute. reflexivity.
  - vm_compute. reflexivity.
Defined.

(** With the empty string as a key the two can differ: a command that
    starts with a quote is cut down to the empty string, its entry is
    returned, and the route is the last compound key that was tried. *)
Example getPkg_empty_command :
  let st := (RegisterPackage quietWorld anything weatherState).1 in
  (getPkg quietWorld (utterance (Some alice) ["'hello"] ["umbrella"]) st).2
    = (Some {| P := anything; RPCClient := someClient |},
       "_umbrella", false, None) ∧
  regPkgs st !! "_umbrella" = None.
Proof. vm_compute. split; reflexivity. Qed.

(** * Package auth *)

(** The [switch] of [RequestAuth], read as a whole: only [MethodWebLogin]
    makes a call. *)
Lemma confirmation_eq w m msg :
  Auth.confirmation w m msg =
  if m =? Auth.MethodWebLogin then
    ([Auth.EvDeleteSessions (Auth.MsgUser msg)],
     match Auth.DeleteSessions w (Auth.MsgUser msg) with
     | Some e => inr e
     | None => inl (Auth.confirmText m)
     end)
  else ([], inl (Auth.confirmText m)).
Proof.
  unfold Auth.confirmation, Auth.confirmText, Auth.MethodCVV, Auth.MethodZip,
    Auth.MethodWebCache, Auth.MethodWebLogin.
  destruct (m =? 1) eqn:E1; [apply Z.eqb_eq in E1 as ->; reflexivity|].
  destruct (m =? 2) eqn:E2; [apply Z.eqb_eq in E2 as ->; reflexivity|].
  destruct (m =? 3) eqn:E3; [apply Z.eqb_eq in E3 as ->; reflexivity|].
  destruct (m =? 4) eqn:E4; [|reflexivity].
  unfold mbind, Auth.M_bind, Auth.bind, Auth.perform, Auth.ret.
  now destruct (Auth.DeleteSessions w (Auth.MsgUser msg)).
Qed.

(** One step of a case analysis along the calls of [RequestAuth], in the
    order of the calls; the branches that have returned are left alone. *)
Ltac auth_step :=
  match goal with
  | |- context [Auth.IsAuthenticated ?w ?u ?m] =>
      destruct (Auth.IsAuthenticated w u m) as [[|] [?|]] eqn:?
  | |- context [?m =? Auth.MethodWebLogin] =>
      destruct (m =? Auth.MethodWebLogin) eqn:?
  | |- context [Auth.DeleteSessions ?w ?u] =>
      destruct (Auth.DeleteSessions w u) eqn:?
  | |- context [Auth.Beginx ?w] => destruct (Auth.Beginx w) eqn:?
  | |- context [Auth.InsertAuthorization ?w ?m] =>
      destruct (Auth.InsertAuthorization w m) as [? [?|]] eqn:?
  | |- context [Auth.UpdateUser ?w ?a ?u] =>
      destruct (Auth.UpdateUser w a u) eqn:?
  | |- context [Auth.Commit ?w] => destruct (Auth.Commit w) eqn:?
  | |- context [Auth.FlexIDType ?i =? 2] =>
      destruct (Auth.FlexIDType i =? 2) eqn:?
  | |- context [Auth.SendMessage ?w ?to ?t] =>
      destruct (Auth.SendMessage w to t) eqn:?
  end; cbn [fst snd app].

Ltac auth_unfold :=
  unfold Auth.RequestAuth; rewrite ?confirmation_eq;
  unfold Auth.fullRequest, Auth.ask, Auth.perform, Auth.fail, Auth.ret,
    mbind, Auth.M_bind, Auth.bind; cbn [fst snd app].

(** X14: [RequestAuth] answers [true] exactly when the user's own check
    says so without error, and then it has done nothing else: no session is
    deleted, nothing is written, no message is sent.  After a request for
    confirmation the answer is never [true]. *)
Theorem RequestAuth_true_iff w m msg :
  ((Auth.RequestAuth w m msg).2 = inl true <->
   Auth.IsAuthenticated w (Auth.MsgUser msg) m = (true, None)) ∧
  ((Auth.RequestAuth w m msg).2 = inl true ->
   (Auth.RequestAuth w m msg).1 = [Auth.EvIsAuthenticated (Auth.MsgUser msg) m]).
Proof.
  auth_unfold. repeat auth_step; split; try split; congruence.
Qed.

(** X15: the calls of [RequestAuth] are an initial part of one fixed
    sequence: the user's check, the deletion of the sessions (for
    [MethodWebLogin] only), begin, insert, update, commit, and the message
    (for the flex id type 2 only).  No call is skipped or made twice, and
    the answer [(false, nil)] means that the whole sequence ran: the message
    went out, after the commit. *)
Theorem RequestAuth_steps_in_order w m msg :
  (Auth.RequestAuth w m msg).1 `prefix_of` Auth.fullRequest w m msg ∧
  ((Auth.RequestAuth w m msg).2 = inl false ->
   (Auth.RequestAuth w m msg).1 = Auth.fullRequest w m msg ∧
   Auth.FlexIDType (Auth.MsgInput msg) = 2 ∧
   Auth.SendMessage w (Auth.FlexID (Auth.MsgInput msg)) (Auth.confirmText m)
     = None).
Proof.
  auth_unfold. repeat auth_step;
    (split; [eexists; reflexivity | try discriminate]);
    intros _; repeat split; now apply Z.eqb_eq.
Qed.

(** X16: a flex id type other than 2 is found out after the commit: when
    the user is not authenticated and the database calls succeed, the
    authorization is written and committed, no message is sent, and the
    error "unhandled flexidtype" is returned. *)
Theorem RequestAuth_unhandled_flexid w m msg :
  Auth.IsAuthenticated w (Auth.MsgUser msg) m = (false, None) ->
  (m = Auth.MethodWebLogin -> Auth.DeleteSessions w (Auth.MsgUser msg) = None) ->
  Auth.Beginx w = None ->
  (Auth.InsertAuthorization w m).2 = None ->
  Auth.UpdateUser w (Auth.InsertAuthorization w m).1
    (Auth.ID (Auth.MsgUser msg)) = None ->
  Auth.Commit w = None ->
  Auth.FlexIDType (Auth.MsgInput msg) ≠ 2 ->
  Auth.RequestAuth w m msg =
    ([Auth.EvIsAuthenticated (Auth.MsgUser msg) m]
     ++ (if m =? Auth.MethodWebLogin
         then [Auth.EvDeleteSessions (Auth.MsgUser msg)] else [])
     ++ [Auth.EvBeginx; Auth.EvInsertAuthorization m;
         Auth.EvUpdateUser (Auth.InsertAuthorization w m).1
           (Auth.ID (Auth.MsgUser msg));
         Auth.EvCommit],
     inr (ErrOther ("unhandled flexidtype: "
                    +:+ Itoa (Auth.FlexIDType (Auth.MsgInput msg))))).
Proof.
  intros Hauth Hdel Hbegin Hins Hupd Hcommit Hflex.
  auth_unfold. rewrite Hauth, Hbegin, Hins, Hupd, Hcommit. cbn [fst snd app].
  apply Z.eqb_neq in Hflex. rewrite Hflex.
  destruct (m =? Auth.MethodWebLogin) eqn:E; [|reflexivity].
  apply Z.eqb_eq in E. now rewrite (Hdel E).
Qed.

Lemma RequestAuth_unhandled_flexid_witness :
  Auth.RequestAuth Auth.production Auth.MethodWebLogin Auth.byMail =
    ([Auth.EvIsAuthenticated Auth.bob 4; Auth.EvDeleteSessions Auth.bob;
      Auth.EvBeginx; Auth.EvInsertAuthorization 4; Auth.EvUpdateUser 31 7;
      Auth.EvCommit],
     inr (ErrOther "unhandled flexidtype: 1")).
Proof.
  rewrite (RequestAuth_unhandled_flexid Auth.production Auth.MethodWebLogin
             Auth.byMail); try reflexivity.
  discriminate.
Defined.

(** The three ways [RequestAuth] ends, with what its calls can be. *)
Lemma RequestAuth_cases w m msg :
  Forall isRequestEvent (Auth.RequestAuth w m msg).1 ∧
  ((Auth.RequestAuth w m msg).2 = inl true ->
   Auth.IsAuthenticated w (Auth.MsgUser msg) m = (true, None)).
Proof.
  auth_unfold. repeat auth_step;
    (split; [repeat constructor | congruence]).
Qed.

Lemma Purchase_eq w m msg prds price :
  Auth.Purchase w m msg prds price =
  if String.eqb (Auth.Getenv w "AVA_ENV") "production" then
    match Auth.RequestAuth w m msg with
    | (evs, inl true) =>
        (evs ++ (checkout w msg prds price).1, (checkout w msg prds price).2)
    | (evs, inl false) => (evs, inl tt)
    | (evs, inr e) => (evs, inr e)
    end
  else checkout w msg prds price.
Proof.
  unfold Auth.Purchase, checkout. fold (purchaseParams msg price).
  unfold mbind, Auth.M_bind, Auth.bind, Auth.perform, Auth.ret.
  destruct (String.eqb (Auth.Getenv w "AVA_ENV") "production").
  - destruct (Auth.RequestAuth w m msg) as [evs [[|]|e]]; cbn [negb];
      try (rewrite app_nil_r; reflexivity); try reflexivity.
    destruct (Auth.ChargeNew w (purchaseParams msg price)); [reflexivity|].
    now destruct (Auth.SendPurchaseConfirmation w prds price (Auth.MsgUser msg)).
  - cbn [negb app].
    destruct (Auth.ChargeNew w (purchaseParams msg price)); [reflexivity|].
    now destruct (Auth.SendPurchaseConfirmation w prds price (Auth.MsgUser msg)).
Qed.

Lemma checkout_events w msg prds price e :
  e ∈ (checkout w msg prds price).1 -> ¬ isRequestEvent e.
Proof.
  unfold checkout.
  destruct (Auth.ChargeNew w (purchaseParams msg price)); cbn [fst app];
    intros He; apply list_elem_of_In in He; simpl in He;
    repeat (destruct He as [<-|He]; [now intros []|]); destruct He.
Qed.

(** X17: in production [Purchase] charges the card only when the user's
    own check has answered [true] without error: a charge among its calls
    means the user was authenticated before this purchase. *)
Theorem Purchase_charge_requires_auth w m msg prds price params :
  Auth.Getenv w "AVA_ENV" = "production" ->
  Auth.EvChargeNew params ∈ (Auth.Purchase w m msg prds price).1 ->
  Auth.IsAuthenticated w (Auth.MsgUser msg) m = (true, None).
Proof.
  intros Henv. rewrite Purchase_eq, Henv. cbn [String.eqb Ascii.eqb Bool.eqb].
  destruct (RequestAuth_cases w m msg) as [Hreq Htrue].
  destruct (Auth.RequestAuth w m msg) as [evs [[|]|e]]; cbn [fst snd] in *.
  - intros _. now apply Htrue.
  - intros Hin. rewrite Forall_forall in Hreq. now destruct (Hreq _ Hin).
  - intros Hin. rewrite Forall_forall in Hreq. now destruct (Hreq _ Hin).
Qed.

Lemma Purchase_charge_requires_auth_witness :
  Auth.IsAuthenticated Auth.trusted Auth.bob Auth.MethodCVV = (true, None).
Proof.
  apply (Purchase_charge_requires_auth Auth.trusted Auth.MethodCVV Auth.bySMS
           [] 1999 (purchaseParams Auth.bySMS 1999)).
  - reflexivity.
  - apply list_elem_of_In. vm_compute. tauto.
Defined.

(** X18: in production, when [RequestAuth] has asked the user for a
    confirmation (it answered [false] without error), [Purchase] returns
    [nil] and has done nothing beyond the calls of [RequestAuth]: no key is
    set, no card is charged, no confirmation is mailed.  So [nil] is
    returned both for a purchase that was made and for one that was not. *)
Theorem Purchase_unauthenticated_returns_nil w m msg prds price evs :
  Auth.Getenv w "AVA_ENV" = "production" ->
  Auth.RequestAuth w m msg = (evs, inl false) ->
  Auth.Purchase w m msg prds price = (evs, inl tt).
Proof.
  intros Henv Hreq. rewrite Purchase_eq, Henv, Hreq. reflexivity.
Qed.

Lemma Purchase_unauthenticated_returns_nil_witness :
  Auth.Purchase Auth.production Auth.MethodZip Auth.bySMS [] 1999 =
  ([Auth.EvIsAuthenticated Auth.bob 2; Auth.EvBeginx;
    Auth.EvInsertAuthorization 2; Auth.EvUpdateUser 31 7; Auth.EvCommit;
    Auth.EvSendMessage "+15550100" "Please confirm your billing zip code"],
   inl tt).
Proof.
  apply (Purchase_unauthenticated_returns_nil Auth.production Auth.MethodZip
           Auth.bySMS [] 1999); reflexivity.
Defined.





(** * Package knowledge *)

Example Fields_ex :
  Knowledge.Fields "  take me to  home now " = ["take"; "me"; "to"; "home"; "now"].
Proof. reflexivity. Qed.

Example firstPlace_ex :
  Knowledge.firstPlace (Knowledge.Fields "from the office to home") = "office" ∧
  Knowledge.firstPlace (Knowledge.Fields "my homework at Home") = EmptyString.
Proof. split; reflexivity. Qed.

Lemma isPlace_eqb f :
  String.eqb f "home" || String.eqb f "office" = true <-> isPlace f.
Proof.
  unfold isPlace. rewrite orb_true_iff, !String.eqb_eq. reflexivity.
Qed.

(** The loop of [GetAddress]: it stops at the first field that is a place. *)
Lemma firstPlace_spec fields :
  (Knowledge.firstPlace fields = EmptyString ∧ ∀ f, f ∈ fields -> ¬ isPlace f) ∨
  (isPlace (Knowledge.firstPlace fields) ∧
   ∃ before after,
     fields = before ++ Knowledge.firstPlace fields :: after ∧
     ∀ f, f ∈ before -> ¬ isPlace f).
Proof.
  induction fields as [|f fields IH]; simpl.
  - left. split; [reflexivity|]. intros f []%elem_of_nil.
  - destruct (String.eqb f "home" || String.eqb f "office") eqn:E.
    + right. apply isPlace_eqb in E. split; [exact E|].
      exists [], fields. split; [reflexivity|]. intros f' []%elem_of_nil.
    + assert (¬ isPlace f) as Hf
        by (intros H%isPlace_eqb; congruence).
      destruct IH as [[Hnone Hall]|(Hplace & before & after & Heq & Hall)].
      * left. split; [exact Hnone|].
        intros f' [->|Hin]%elem_of_cons; auto.
      * right. split; [exact Hplace|].
        exists (f :: before), after. split; [simpl; now rewrite <- Heq|].
        intros f' [->|Hin]%elem_of_cons; auto.
Qed.

(** X21: [GetAddress] asks the database exactly when a white-space
    separated word of the sentence is "home" or "office", and then once,
    for the first such word; without such a word it returns [nil, nil] and
    asks nothing.  On no path does it return an address: the destination of
    the query is a nil pointer of its own, so the address it returns is
    [nil] also when the query reports no error. *)
Theorem GetAddress_query w u sent :
  (Knowledge.GetAddress w u sent).2.1 = None ∧
  ((∀ f, f ∈ Knowledge.Fields sent -> ¬ isPlace f) ->
   Knowledge.GetAddress w u sent = ([], (None, None))) ∧
  (∀ f, f ∈ Knowledge.Fields sent -> isPlace f ->
        ∃ name before after,
          isPlace name ∧
          Knowledge.Fields sent = before ++ name :: after ∧
          (∀ f', f' ∈ before -> ¬ isPlace f') ∧
          Knowledge.GetAddress w u sent =
            ([Knowledge.EvGetAddress (Knowledge.ID u) name],
             (None, Knowledge.GetAddressRow w (Knowledge.ID u) name))).
Proof.
  unfold Knowledge.GetAddress.
  destruct (firstPlace_spec (Knowledge.Fields sent))
    as [[Hnone Hall]|(Hplace & before & after & Heq & Hall)].
  - rewrite Hnone. cbn [String.length Nat.eqb]. repeat split.
    intros f Hf Hp. now destruct (Hall f Hf).
  - assert ((String.length (Knowledge.firstPlace (Knowledge.Fields sent)) =? 0)%nat
            = false) as Hlen by (destruct Hplace as [-> | ->]; reflexivity).
    rewrite Hlen. split; [|split].
    + now destruct (Knowledge.GetAddressRow w _ _).
    + intros Hno. exfalso.
      apply (Hno (Knowledge.firstPlace (Knowledge.Fields sent)));
        [|exact Hplace].
      set (name := Knowledge.firstPlace (Knowledge.Fields sent)) in *.
      rewrite Heq. apply elem_of_app. right. now left.
    + intros _ _ _.
      exists (Knowledge.firstPlace (Knowledge.Fields sent)), before, after.
      repeat split; auto.
      now destruct (Knowledge.GetAddressRow w _ _).
Qed.

(** X22: [GetLocation] never returns a location.  Its destination [loc] is
    a nil pointer that the query cannot set; so it returns [nil] with the
    question for an unnamed place (no location id, or no row), or [nil] with
    the error of the query, and when the query reports no error it
    dereferences [loc] and panics.  The question that names the last place
    and the answer without question are never given. *)
Theorem GetLocation_never_a_location w u :
  match (Knowledge.GetLocation w u).2 with
  | Returns (loc, question, err) =>
      loc = None ∧
      (err = None -> question = Knowledge.QuestionLocation w EmptyString) ∧
      (err ≠ None -> question = EmptyString)
  | Panics =>
      Knowledge.LocationID u ≠ 0 ∧
      Knowledge.GetLocationRow w (Knowledge.ID u) = None
  end ∧
  (Knowledge.LocationID u ≠ 0 ->
   Knowledge.GetLocationRow w (Knowledge.ID u) = None ->
   Knowledge.GetLocation w u = ([Knowledge.EvGetLocation (Knowledge.ID u)], Panics)).
Proof.
  unfold Knowledge.GetLocation.
  destruct (Knowledge.LocationID u =? 0) eqn:E.
  - apply Z.eqb_eq in E. split; [|congruence]. cbn [snd]. repeat split.
    intros H. now destruct H.
  - apply Z.eqb_neq in E.
    destruct (Knowledge.GetLocationRow w (Knowledge.ID u)) as [[|text]|];
      cbn [snd]; (split; [|try discriminate; reflexivity]).
    + repeat split. intros H. now destruct H.
    + repeat split. discriminate.
    + split; [exact E | reflexivity].
Qed.

Example GetLocation_obliging :
  Knowledge.GetLocation Knowledge.obligingDb Knowledge.carol
  = ([Knowledge.EvGetLocation 3], Panics) ∧
  Knowledge.GetLocation Knowledge.emptyDb Knowledge.carol
  = ([Knowledge.EvGetLocation 3], Returns (None, "Where are you? ", None)).
Proof. split; reflexivity. Qed.

Example GetAddress_obliging :
  Knowledge.GetAddress Knowledge.obligingDb Knowledge.carol
    "take me to the office"
  = ([Knowledge.EvGetAddress 3 "office"], (None, None)).
Proof. reflexivity. Qed.

Lemma GetAddress_query_witness :
  Knowledge.GetAddress Knowledge.obligingDb Knowledge.carol
    "my homework is at Home" = ([], (None, None)).
Proof.
  destruct (GetAddress_query Knowledge.obligingDb Knowledge.carol
              "my homework is at Home") as (_ & Hnone & _).
  apply Hnone. intros f Hf. apply list_elem_of_In in Hf. vm_compute in Hf.
  unfold isPlace.
  repeat (destruct Hf as [<-|Hf]; [intros [?|?]; discriminate|]).
  destruct Hf.
Defined.

Lemma GetLocation_never_a_location_witness :
  Knowledge.GetLocation Knowledge.obligingDb Knowledge.carol
  = ([Knowledge.EvGetLocation 3], Panics).
Proof.
  destruct (GetLocation_never_a_location Knowledge.obligingDb Knowledge.carol)
    as [_ Hpanic].
  apply Hpanic; [discriminate | reflexivity].
Defined.

Lemma RequestAuth_true_iff_witness :
  (Auth.RequestAuth Auth.trusted Auth.MethodWebLogin Auth.bySMS).1
  = [Auth.EvIsAuthenticated Auth.bob 4].
Proof.
  destruct (RequestAuth_true_iff Auth.trusted Auth.MethodWebLogin Auth.bySMS)
    as [_ Hquiet].
  apply Hquiet. reflexivity.
Defined.

Lemma RequestAuth_steps_in_order_witness :
  (Auth.RequestAuth Auth.production Auth.MethodWebLogin Auth.bySMS).1
  = Auth.fullRequest Auth.production Auth.MethodWebLogin Auth.bySMS.
Proof.
  destruct (RequestAuth_steps_in_order Auth.production Auth.MethodWebLogin
              Auth.bySMS) as [_ Hfull].
  apply Hfull. reflexivity.
Defined.

(** The fields of a sentence are words: none is empty and none holds a
    white-space byte. *)
Lemma noSpace_snoc s a :
  noSpace (s +:+ String a EmptyString) = noSpace s && negb (Knowledge.isSpace a).
Proof.
  induction s as [|b s IH]; simpl.
  - now rewrite andb_true_r.
  - now rewrite IH, andb_assoc.
Qed.

Lemma fieldsFrom_words cur s f :
  noSpace cur = true -> f ∈ Knowledge.fieldsFrom cur s ->
  f ≠ EmptyString ∧ noSpace f = true.
Proof.
  revert cur. induction s as [|a s IH]; intros cur Hcur; simpl.
  - destruct cur; [intros []%elem_of_nil|].
    intros ->%list_elem_of_singleton. now split.
  - destruct (Knowledge.isSpace a) eqn:E.
    + destruct cur.
      * now apply IH.
      * intros [->|Hin]%elem_of_cons; [now split | now apply (IH EmptyString)].
    + apply IH. now rewrite noSpace_snoc, Hcur, E.
Qed.

Lemma Fields_words s f :
  f ∈ Knowledge.Fields s -> f ≠ EmptyString ∧ noSpace f = true.
Proof. now apply fieldsFrom_words. Qed.
